(** * Tic-tac-toe backend: game logic, search engine and match state machines

    A shallow embedding of [src/services/gameLogic.js], [src/services/bot.js],
    [src/routes/game.js], [src/routes/rooms.js] and [src/routes/bot.js],
    followed by the properties of the specification that were checked
    against it. *)

From Stdlib Require Import ZArith List Ascii String Bool Lia Orders OrdersTac Sorted Permutation.
From stdpp Require Import base list.
Import ListNotations.

Local Open Scope Z_scope.

(** ** JavaScript values used by the program *)

(** A board is a JavaScript string; it is kept as the list of its
    characters, the result of [board.split('')]. *)
Abbreviation Board := (list ascii).

(** [B "X-O------"] is the board written as a string literal. *)
Definition B (s : string) : Board := list_ascii_of_string s.

(** [board[i]]: [None] stands for [undefined], the value JavaScript gives
    outside the string. *)
Definition charAt (b : Board) (i : Z) : option ascii :=
  if i <? 0 then None else b !! Z.to_nat i.

(** [===] on values that are a character or [undefined]. *)
Definition strict_eq (x y : option ascii) : bool :=
  match x, y with
  | Some a, Some c => Ascii.eqb a c
  | None, None => true
  | _, _ => false
  end.

(** JavaScript numbers as the search uses them: integers and the two
    infinities. *)
Inductive num : Type :=
  | NegInfinity
  | Num (z : Z)
  | Infinity.

Definition num_leb (x y : num) : bool :=
  match x, y with
  | NegInfinity, _ => true
  | _, Infinity => true
  | Num a, Num b => a <=? b
  | _, _ => false
  end.

Definition num_ltb (x y : num) : bool := negb (num_leb y x).

(** [Math.max] and [Math.min]. *)
Definition num_max (x y : num) : num := if num_leb x y then y else x.
Definition num_min (x y : num) : num := if num_leb x y then x else y.

(** ** gameLogic.js *)

Module GameLogic.

Definition WINNING_COMBINATIONS : list (Z * Z * Z) :=
  [ (0, 1, 2); (3, 4, 5); (6, 7, 8);
    (0, 3, 6); (1, 4, 7); (2, 5, 8);
    (0, 4, 8); (2, 4, 6) ].

(** The test of the loop body of [checkWinner]:
    [board[a] !== '-' && board[a] === board[b] && board[b] === board[c]]. *)
Definition line_complete (b : Board) (t : Z * Z * Z) : bool :=
  let '(a, b', c) := t in
  negb (strict_eq (charAt b a) (Some "-"%char))
  && strict_eq (charAt b a) (charAt b b')
  && strict_eq (charAt b b') (charAt b c).

(** [checkWinner]: [None] is [null]; [Some v] is the returned [board[a]],
    a character or (on a board shorter than nine) [undefined]. *)
Definition checkWinner (b : Board) : option (option ascii) :=
  match find (line_complete b) WINNING_COMBINATIONS with
  | Some (a, _, _) => Some (charAt b a)
  | None => None
  end.

(** [winner === symbol] for a one-character symbol. *)
Definition winner_is (w : option (option ascii)) (symbol : ascii) : bool :=
  match w with
  | Some (Some c) => Ascii.eqb c symbol
  | _ => false
  end.

(** Truthiness of the value [checkWinner] returns: [null] and [undefined]
    are falsy, a character is truthy. *)
Definition truthy (w : option (option ascii)) : bool :=
  match w with
  | Some (Some _) => true
  | _ => false
  end.

(** [board.includes('-')] *)
Definition includes_dash (b : Board) : bool :=
  existsb (fun ch => Ascii.eqb ch "-"%char) b.

Definition isDraw (b : Board) : bool :=
  negb (includes_dash b) && negb (truthy (checkWinner b)).

Definition isValidMove (b : Board) (position : Z) : bool :=
  if (position <? 0) || (position >? 8) then false
  else strict_eq (charAt b position) (Some "-"%char).

(** [makeMove], for an integer [position]: [boardArray[position] = symbol]
    replaces the character inside the array; past its end JavaScript extends
    the array with holes, which [join('')] prints as nothing, so the symbol
    lands at the end; a negative index sets a property that [join]
    ignores. *)
Definition makeMove (b : Board) (position : Z) (symbol : ascii) : Board :=
  if position <? 0 then b
  else if position <? Z.of_nat (length b) then <[Z.to_nat position := symbol]> b
  else b ++ [symbol].

Definition countMoves (b : Board) : Z :=
  Z.of_nat (length (List.filter (fun ch => negb (Ascii.eqb ch "-"%char)) b)).

(** [getAvailableMoves]: the loop [for (let i = 0; i < 9; i++)]. *)
Definition getAvailableMoves (b : Board) : list Z :=
  List.filter (fun i => strict_eq (charAt b i) (Some "-"%char)) [0; 1; 2; 3; 4; 5; 6; 7; 8].

Definition count_char (ch : ascii) (b : Board) : Z :=
  Z.of_nat (length (List.filter (fun x => Ascii.eqb x ch) b)).

Definition getNextSymbol (b : Board) : ascii :=
  if count_char "X"%char b <=? count_char "O"%char b then "X"%char else "O"%char.

Inductive validation : Type :=
  | Valid
  | Invalid (error : string).

(** [validateBoard]: [!board] holds of the empty string only, whose length
    is not nine either. *)
Definition validateBoard (b : Board) : validation :=
  if negb (length b =? 9)%nat then Invalid "Invalid board length"
  else if negb (forallb (fun ch => Ascii.eqb ch "X"%char || Ascii.eqb ch "O"%char
                                   || Ascii.eqb ch "-"%char) b)
  then Invalid "Invalid board characters"
  else
    let xCount := count_char "X"%char b in
    let oCount := count_char "O"%char b in
    if (xCount <? oCount) || (xCount >? oCount + 1) then Invalid "Invalid move count"
    else Valid.

End GameLogic.

(** [getGameStatus] of gameLogic.js and the object it returns. *)
Module GameStatus.
Local Open Scope string_scope.

Record GameStatus : Type := {
  status : string;
  winner : option (option ascii);
  isDraw : bool
}.

Definition getGameStatus (b : Board) : GameStatus :=
  let winner := GameLogic.checkWinner b in
  if GameLogic.truthy winner then
    {| status := "finished"; winner := winner; isDraw := false |}
  else if GameLogic.isDraw b then
    {| status := "finished"; winner := None; isDraw := true |}
  else
    {| status := "in-progress"; winner := None; isDraw := false |}.

End GameStatus.

(** ** utils/helpers.js: the board as an array of one-character strings *)

Module Helpers.
Local Open Scope string_scope.

(** [board.split('')] *)
Definition boardToArray (board : string) : list string :=
  map (fun ch => String ch EmptyString) (list_ascii_of_string board).

(** [boardArray.join('')] *)
Definition arrayToBoard (boardArray : list string) : string :=
  fold_right String.append EmptyString boardArray.

(** [formatBoard]: three rows of three cells; a cell past the end of the
    array is [undefined], here [None]. *)
Definition formatBoard (board : string) : list (list (option string)) :=
  let arr := boardToArray board in
  [ [arr !! 0%nat; arr !! 1%nat; arr !! 2%nat];
    [arr !! 3%nat; arr !! 4%nat; arr !! 5%nat];
    [arr !! 6%nat; arr !! 7%nat; arr !! 8%nat] ].

End Helpers.

(** ** services/bot.js *)

Module Bot.
Import GameLogic.

(** The two [for] loops of [minimax].  [child position alpha beta] is the
    recursive call on the board after [position] is played. *)
Fixpoint max_loop (child : Z -> num -> num -> num) (positions : list Z)
    (maxScore alpha beta : num) : num :=
  match positions with
  | [] => maxScore
  | position :: rest =>
      let score := child position alpha beta in
      let maxScore := num_max maxScore score in
      let alpha := num_max alpha score in
      if num_leb beta alpha then maxScore
      else max_loop child rest maxScore alpha beta
  end.

Fixpoint min_loop (child : Z -> num -> num -> num) (positions : list Z)
    (minScore alpha beta : num) : num :=
  match positions with
  | [] => minScore
  | position :: rest =>
      let score := child position alpha beta in
      let minScore := num_min minScore score in
      let beta := num_min beta score in
      if num_leb beta alpha then minScore
      else min_loop child rest minScore alpha beta
  end.

(** [minimax], with the recursion bounded by [fuel]: every call plays a
    symbol on one of the at most nine free cells, so ten levels are never
    exhausted and the value at [fuel = 0] is never used (lemma
    [minimax_fuel_enough] below, for symbols other than the empty mark; with
    the empty mark as a symbol the JavaScript recursion does not end). *)
Fixpoint minimax_fuel (fuel : nat) (b : Board) (depth : Z) (isMaximizing : bool)
    (alpha beta : num) (botSymbol playerSymbol : ascii) : num :=
  match fuel with
  | O => Num 0
  | S fuel' =>
      let winner := checkWinner b in
      if winner_is winner botSymbol then Num (10 - depth)
      else if winner_is winner playerSymbol then Num (depth - 10)
      else if isDraw b then Num 0
      else
        let availableMoves := getAvailableMoves b in
        if isMaximizing then
          max_loop
            (fun position alpha beta =>
               minimax_fuel fuel' (makeMove b position botSymbol) (depth + 1) false
                 alpha beta botSymbol playerSymbol)
            availableMoves NegInfinity alpha beta
        else
          min_loop
            (fun position alpha beta =>
               minimax_fuel fuel' (makeMove b position playerSymbol) (depth + 1) true
                 alpha beta botSymbol playerSymbol)
            availableMoves Infinity alpha beta
  end.

Definition minimax := minimax_fuel 10.

(** The last loop of [findBestMove]: a strictly better score replaces the
    best move. *)
Fixpoint best_loop (score_of : Z -> num) (positions : list Z)
    (bestMove : Z) (bestScore : num) : Z :=
  match positions with
  | [] => bestMove
  | position :: rest =>
      let score := score_of position in
      if num_ltb bestScore score then best_loop score_of rest position score
      else best_loop score_of rest bestMove bestScore
  end.

(** The score [findBestMove] gives to playing [position]. *)
Definition root_score (b : Board) (botSymbol playerSymbol : ascii) (position : Z) : num :=
  minimax (makeMove b position botSymbol) 0 false NegInfinity Infinity
    botSymbol playerSymbol.

(** [findBestMove]: the two loops that return from inside are searches for
    the first move that wins at once and the first that blocks;
    [availableMoves[0]] is read on a list known not to be empty. *)
Definition findBestMove (b : Board) (botSymbol playerSymbol : ascii) : Z :=
  let availableMoves := getAvailableMoves b in
  if (length availableMoves =? 0)%nat then -1
  else if (length availableMoves =? 9)%nat then 4
  else if (length availableMoves =? 8)%nat && strict_eq (charAt b 4) (Some "-"%char) then 4
  else
    match find (fun position =>
                  winner_is (checkWinner (makeMove b position botSymbol)) botSymbol)
               availableMoves with
    | Some position => position
    | None =>
        match find (fun position =>
                      winner_is (checkWinner (makeMove b position playerSymbol)) playerSymbol)
                   availableMoves with
        | Some position => position
        | None =>
            best_loop (root_score b botSymbol playerSymbol) availableMoves
              (hd (-1) availableMoves) NegInfinity
        end
    end.

(** The object returned by [checkGameOver]. *)
Record GameOver : Type := {
  isOver : bool;
  winner : option (option ascii);
  isDraw : bool
}.

(** [checkGameOver]: [isOver] is [winner !== null || draw]. *)
Definition checkGameOver (b : Board) : GameOver :=
  let winner := checkWinner b in
  let draw := GameLogic.isDraw b in
  {| isOver := match winner with None => draw | Some _ => true end;
     winner := winner;
     isDraw := draw |}.

End Bot.

(** ** Errors thrown inside the transactions *)

Inductive result (E A : Type) : Type :=
  | Ok (a : A)
  | Err (e : E).
Arguments Ok {E A} a.
Arguments Err {E A} e.

(** [x === id] for a nullable text column [x]. *)
Definition is_user (x : option string) (id : string) : bool :=
  match x with
  | Some y => String.eqb y id
  | None => false
  end.

(** Truthiness of a nullable text column: [null] and the empty string are
    falsy. *)
Definition truthy_text (x : option string) : bool :=
  match x with
  | Some EmptyString => false
  | Some _ => true
  | None => false
  end.

(** [clientVersion !== undefined && row.version !== clientVersion] *)
Definition version_conflict (clientVersion : option Z) (version : Z) : bool :=
  match clientVersion with
  | Some v => negb (version =? v)
  | None => false
  end.

(** ** routes/rooms.js and routes/game.js: the human-versus-human match *)

Module Rooms.
Local Open Scope string_scope.

(** A row of table [Room] (the columns the handlers read or write).  User
    ids are the text of the column; [version] is the integer column, taken
    without the bound of its 32 bits. *)
Record Room : Type := {
  status : string;
  player1Id : option string;
  player2Id : option string;
  currentTurn : option string;
  board : Board;
  winnerId : option string;
  isDraw : bool;
  version : Z
}.

(** A row of table [Move]. *)
Record Move : Type := {
  playerId : string;
  position : Z;
  symbol : ascii;
  moveOrder : Z
}.

(** What the database holds for one room: its row, its move log in
    insertion order and the users recorded as spectators. *)
Record Db : Type := {
  room : Room;
  moves : list Move;
  spectators : list string
}.

(** [POST /api/rooms]: the columns not given take the defaults of the
    schema. *)
Definition create (userId : string) : Db :=
  {| room := {| status := "waiting";
                player1Id := Some userId;
                player2Id := None;
                currentTurn := Some "player1";
                board := B "---------";
                winnerId := None;
                isDraw := false;
                version := 0 |};
     moves := [];
     spectators := [] |}.

(** [POST /api/rooms/:code/join], on an existing room. *)
Definition join (db : Db) (userId : string) : Db :=
  let r := room db in
  if is_user (player1Id r) userId || is_user (player2Id r) userId
     || existsb (String.eqb userId) (spectators db)
  then db
  else if negb (truthy_text (player2Id r)) && String.eqb (status r) "waiting" then
    {| room := {| status := "in-progress";
                  player1Id := player1Id r;
                  player2Id := Some userId;
                  currentTurn := currentTurn r;
                  board := board r;
                  winnerId := winnerId r;
                  isDraw := isDraw r;
                  version := version r |};
       moves := moves db;
       spectators := spectators db |}
  else
    {| room := r; moves := moves db; spectators := (spectators db ++ [userId])%list |}.

(** [POST /api/rooms/:code/spectate], on an existing room: refused for a
    seated player, otherwise an upsert of the spectator record. *)
Definition spectate (db : Db) (userId : string) : Db :=
  let r := room db in
  if is_user (player1Id r) userId || is_user (player2Id r) userId then db
  else if existsb (String.eqb userId) (spectators db) then db
  else {| room := r; moves := moves db; spectators := (spectators db ++ [userId])%list |}.

(** [POST /api/rooms/:code/leave], on an existing room; [None] when the
    room has been deleted. *)
Definition leave (db : Db) (userId : string) : option Db :=
  let r := room db in
  if negb (is_user (player1Id r) userId) && negb (is_user (player2Id r) userId) then
    Some {| room := r;
            moves := moves db;
            spectators := List.filter (fun u => negb (String.eqb u userId)) (spectators db) |}
  else if is_user (player1Id r) userId then None
  else if String.eqb (status r) "in-progress" then
    Some {| room := {| status := "finished";
                       player1Id := player1Id r;
                       player2Id := None;
                       currentTurn := currentTurn r;
                       board := board r;
                       winnerId := player1Id r;
                       isDraw := isDraw r;
                       version := version r |};
            moves := moves db;
            spectators := spectators db |}
  else
    Some {| room := {| status := "waiting";
                       player1Id := player1Id r;
                       player2Id := None;
                       currentTurn := currentTurn r;
                       board := board r;
                       winnerId := winnerId r;
                       isDraw := isDraw r;
                       version := version r |};
            moves := moves db;
            spectators := spectators db |}.

End Rooms.

Module Game.
Import Rooms.
Local Open Scope string_scope.

Inductive MoveError : Type :=
  | ROOM_NOT_FOUND
  | GAME_NOT_STARTED
  | GAME_FINISHED
  | VERSION_CONFLICT
  | NOT_A_PLAYER
  | NOT_YOUR_TURN
  | INVALID_MOVE.

(** The seat of the caller: ['player1'], ['player2'] or none. *)
Definition playerRole (r : Room) (userId : string) : option string :=
  if is_user (player1Id r) userId then Some "player1"
  else if is_user (player2Id r) userId then Some "player2"
  else None.

(** [room.currentTurn !== playerRole] *)
Definition is_turn (turn : option string) (role : string) : bool :=
  match turn with
  | Some t => String.eqb t role
  | None => false
  end.

(** [POST /api/game/:roomId/move]: the body of the transaction.  [None] for
    the database is a room that does not exist; an error leaves the
    database as it was. *)
Definition move (db : option Db) (userId : string) (position : Z)
    (clientVersion : option Z) : result MoveError Db :=
  match db with
  | None => Err ROOM_NOT_FOUND
  | Some db =>
      let r := room db in
      if String.eqb (status r) "waiting" then Err GAME_NOT_STARTED
      else if String.eqb (status r) "finished" then Err GAME_FINISHED
      else if version_conflict clientVersion (version r) then Err VERSION_CONFLICT
      else
        match playerRole r userId with
        | None => Err NOT_A_PLAYER
        | Some role =>
            if negb (is_turn (currentTurn r) role) then Err NOT_YOUR_TURN
            else if negb (GameLogic.isValidMove (board r) position) then Err INVALID_MOVE
            else
              let symbol := if String.eqb role "player1" then "X"%char else "O"%char in
              let newBoard := GameLogic.makeMove (board r) position symbol in
              let winner := GameLogic.checkWinner newBoard in
              let draw := GameLogic.isDraw newBoard in
              let newCurrentTurn :=
                if String.eqb role "player1" then Some "player2" else Some "player1" in
              let '(newStatus, winnerId, newCurrentTurn) :=
                if GameLogic.truthy winner then ("finished", Some userId, None)
                else if draw then ("finished", None, None)
                else ("in-progress", None, newCurrentTurn) in
              let moveCount := GameLogic.countMoves (board r) in
              Ok {| room := {| status := newStatus;
                               player1Id := player1Id r;
                               player2Id := player2Id r;
                               currentTurn := newCurrentTurn;
                               board := newBoard;
                               winnerId := winnerId;
                               isDraw := draw;
                               version := version r + 1 |};
                    moves := (moves db ++
                              [ {| playerId := userId;
                                   position := position;
                                   symbol := symbol;
                                   moveOrder := moveCount + 1 |} ])%list;
                    spectators := spectators db |}
        end
  end.

End Game.

(** ** routes/bot.js: the match against the automated opponent *)

Module BotRoutes.
Local Open Scope string_scope.

(** A row of table [BotGame]. *)
Record BotGame : Type := {
  userId : string;
  board : Board;
  playerSymbol : ascii;
  currentTurn : option string;
  status : string;
  winner : option string;
  version : Z
}.

(** A row of table [BotMove]. *)
Record BotMove : Type := {
  player : string;
  position : Z;
  symbol : ascii;
  moveOrder : Z
}.

Record Db : Type := {
  game : BotGame;
  moves : list BotMove
}.

Inductive MoveError : Type :=
  | GAME_NOT_FOUND
  | NOT_YOUR_GAME
  | GAME_FINISHED
  | NOT_YOUR_TURN
  | VERSION_CONFLICT
  | INVALID_MOVE.

Definition botSymbolOf (playerSymbol : ascii) : ascii :=
  if Ascii.eqb playerSymbol "X"%char then "O"%char else "X"%char.

(** [POST /api/bot/create]; [goFirst] is [None] when the body does not give
    a boolean.  [status], [winner] and [version] take the defaults of the
    schema. *)
Definition create (user : string) (goFirst : option bool) : Db :=
  let board0 := B "---------" in
  let playerSymbol := match goFirst with Some false => "O"%char | _ => "X"%char end in
  let botSymbol := botSymbolOf playerSymbol in
  let '(board1, initialMoves) :=
    match goFirst with
    | Some false =>
        let botMove := Bot.findBestMove board0 botSymbol playerSymbol in
        (GameLogic.makeMove board0 botMove botSymbol,
         [ {| player := "bot"; position := botMove; symbol := botSymbol; moveOrder := 1 |} ])
    | _ => (board0, [])
    end in
  {| game := {| userId := user;
                board := board1;
                playerSymbol := playerSymbol;
                currentTurn := Some "player";
                status := "in-progress";
                winner := None;
                version := 0 |};
     moves := initialMoves |}.

(** [game.currentTurn !== 'player'] *)
Definition not_player_turn (turn : option string) : bool :=
  match turn with
  | Some t => negb (String.eqb t "player")
  | None => true
  end.

(** [POST /api/bot/:gameId/move]: the body of the transaction. *)
Definition move (db : option Db) (user : string) (position : Z)
    (clientVersion : option Z) : result MoveError (Db * option Z) :=
  match db with
  | None => Err GAME_NOT_FOUND
  | Some db =>
      let g := game db in
      if negb (String.eqb (userId g) user) then Err NOT_YOUR_GAME
      else if String.eqb (status g) "finished" then Err GAME_FINISHED
      else if not_player_turn (currentTurn g) then Err NOT_YOUR_TURN
      else if version_conflict clientVersion (version g) then Err VERSION_CONFLICT
      else if negb (GameLogic.isValidMove (board g) position) then Err INVALID_MOVE
      else
        let playerSymbol := playerSymbol g in
        let botSymbol := botSymbolOf playerSymbol in
        let currentMoveOrder := Z.of_nat (length (moves db)) in
        let newBoard := GameLogic.makeMove (board g) position playerSymbol in
        let playerMove :=
          {| player := "player"; position := position; symbol := playerSymbol;
             moveOrder := currentMoveOrder + 1 |} in
        let gameOver := Bot.checkGameOver newBoard in
        let '(newBoard, gameOver, botMove, botEntries) :=
          if negb (Bot.isOver gameOver) then
            let botMove := Bot.findBestMove newBoard botSymbol playerSymbol in
            let newBoard := GameLogic.makeMove newBoard botMove botSymbol in
            (newBoard, Bot.checkGameOver newBoard, Some botMove,
             [ {| player := "bot"; position := botMove; symbol := botSymbol;
                  moveOrder := currentMoveOrder + 2 |} ])
          else (newBoard, gameOver, None, []) in
        let winner :=
          if GameLogic.winner_is (Bot.winner gameOver) playerSymbol then Some "player"
          else if GameLogic.winner_is (Bot.winner gameOver) botSymbol then Some "bot"
          else None in
        Ok ({| game := {| userId := userId g;
                          board := newBoard;
                          playerSymbol := playerSymbol;
                          currentTurn := if Bot.isOver gameOver then None else Some "player";
                          status := if Bot.isOver gameOver then "finished" else "in-progress";
                          winner := winner;
                          version := version g + 1 |};
               moves := (moves db ++ [playerMove] ++ botEntries)%list |},
            botMove)
  end.

End BotRoutes.

(** ** routes/game.js: the status route *)

Module GameStatusRoute.
Import Rooms.
Local Open Scope string_scope.

(** [GET /api/game/:roomId/status]: the flag [isMyTurn] of the answer. *)
Definition isMyTurn (r : Room) (userId : string) : bool :=
  if is_user (player1Id r) userId && Game.is_turn (currentTurn r) "player1" then true
  else if is_user (player2Id r) userId && Game.is_turn (currentTurn r) "player2" then true
  else false.

End GameStatusRoute.

(** ** routes/replay.js: the replay of a room *)

Module Replay.
Import Rooms.




End Replay.

(** ** routes/bot.js: the statistics of the history route *)

Module BotStats.
Local Open Scope string_scope.

Record Stats : Type := {
  total : Z;
  wins : Z;
  losses : Z;
  draws : Z
}.

(** One turn of the loop over the finished games, on the [winner] column of
    the game. *)
Definition count_game (stats : Stats) (winner : option string) : Stats :=
  let stats := {| total := total stats + 1; wins := wins stats;
                  losses := losses stats; draws := draws stats |} in
  match winner with
  | Some w =>
      if String.eqb w "player" then
        {| total := total stats; wins := wins stats + 1;
           losses := losses stats; draws := draws stats |}
      else if String.eqb w "bot" then
        {| total := total stats; wins := wins stats;
           losses := losses stats + 1; draws := draws stats |}
      else
        {| total := total stats; wins := wins stats;
           losses := losses stats; draws := draws stats + 1 |}
  | None =>
      {| total := total stats; wins := wins stats;
         losses := losses stats; draws := draws stats + 1 |}
  end.

(** [GET /api/bot/user/games]: the statistics over the finished games of the
    user. *)
Definition stats_of (finishedGames : list (option string)) : Stats :=
  fold_left count_game finishedGames
    {| total := 0; wins := 0; losses := 0; draws := 0 |}.

End BotStats.

(** * Definitions used to state the properties *)

(** ** The checks of the bot-game move, one predicate per error *)

Module BotChecks.
Import BotRoutes.
Local Open Scope string_scope.

(** Whether the request, taken alone, fails the check that throws [e]. *)
Definition fails (db : Db) (user : string) (position : Z) (clientVersion : option Z)
    (e : MoveError) : bool :=
  let g := game db in
  match e with
  | GAME_NOT_FOUND => false
  | NOT_YOUR_GAME => negb (String.eqb (userId g) user)
  | GAME_FINISHED => String.eqb (status g) "finished"
  | NOT_YOUR_TURN => not_player_turn (currentTurn g)
  | VERSION_CONFLICT => version_conflict clientVersion (version g)
  | INVALID_MOVE => negb (GameLogic.isValidMove (board g) position)
  end.

(** The order in which the handler reports them. *)
Definition check_order : list MoveError :=
  [NOT_YOUR_GAME; GAME_FINISHED; NOT_YOUR_TURN; VERSION_CONFLICT; INVALID_MOVE].

End BotChecks.

(** ** Sequences of requests against one match *)

(** The sequence numbers [1, 2, ..., n], in this order. *)
Definition gapless (orders : list Z) : Prop :=
  orders = map Z.of_nat (seq 1 (length orders)).

Module RoomRun.
Import Rooms.

Inductive Request : Type :=
  | ReqJoin (user : string)
  | ReqSpectate (user : string)
  | ReqMove (user : string) (position : Z) (clientVersion : option Z)
  | ReqLeave (user : string)
  | ReqCleanup.

(** One request against the database; [None] is a room that does not exist
    (every handler then answers 404), a rejected move rolls the transaction
    back, and [ReqCleanup] is the cleanup job deleting the room with its
    moves and spectators. *)
Definition step (db : option Db) (req : Request) : option Db :=
  match db with
  | None => None
  | Some d =>
      match req with
      | ReqJoin user => Some (join d user)
      | ReqSpectate user => Some (spectate d user)
      | ReqMove user position clientVersion =>
          match Game.move (Some d) user position clientVersion with
          | Ok d' => Some d'
          | Err _ => Some d
          end
      | ReqLeave user => leave d user
      | ReqCleanup => None
      end
  end.

Definition run (db : option Db) (reqs : list Request) : option Db :=
  fold_left step reqs db.

(** Replaying the logged cells in order onto the empty board. *)
Definition replay (log : list Move) : Board :=
  fold_left (fun b m => GameLogic.makeMove b (position m) (symbol m)) log (B "---------").


End RoomRun.

Module BotRun.
Import BotRoutes.

Inductive Request : Type :=
  | ReqMove (user : string) (position : Z) (clientVersion : option Z).

Definition step (db : Db) (req : Request) : Db :=
  match req with
  | ReqMove user position clientVersion =>
      match move (Some db) user position clientVersion with
      | Ok (db', _) => db'
      | Err _ => db
      end
  end.

Definition run (db : Db) (reqs : list Request) : Db :=
  fold_left step reqs db.

Definition replay (log : list BotMove) : Board :=
  fold_left (fun b m => GameLogic.makeMove b (position m) (symbol m)) log (B "---------").


End BotRun.

(** ** Move calls that read the same rows *)

Module SameSnapshot.

(** The answers to move calls of one user whose transactions all read the
    rows [db] before any of them writes.  The guards of a transaction look
    only at the row it read, and the writes that follow ([update] with
    [where: { id }], then [create]) test nothing, so each call is answered
    as on the rows read. *)
Definition room_answers (db : Rooms.Db) (userId : string) (clientVersion : option Z)
    (positions : list Z) : list (result Game.MoveError Rooms.Db) :=
  map (fun position => Game.move (Some db) userId position clientVersion) positions.

Definition bot_answers (db : BotRoutes.Db) (userId : string) (clientVersion : option Z)
    (positions : list Z) : list (result BotRoutes.MoveError (BotRoutes.Db * option Z)) :=
  map (fun position => BotRoutes.move (Some db) userId position clientVersion) positions.

(** The number of calls answered with success. *)
Definition committed {E A : Type} (answers : list (result E A)) : nat :=
  length (List.filter (fun a => match a with Ok _ => true | Err _ => false end) answers).

End SameSnapshot.

(** ** Exhaustive minimax, as the specification words it *)

Module Exhaustive.
Import GameLogic.

(** Recursive minimax over the full remaining game tree: the acting side
    maximises, the opponent minimises, no branch is cut.  Terminal scoring
    as in the search engine: [10 - depth] for a win of the acting side,
    [depth - 10] for a win of the opponent, [0] for a draw. *)
Fixpoint minimax_exhaustive_fuel (fuel : nat) (b : Board) (depth : Z)
    (isMaximizing : bool) (botSymbol playerSymbol : ascii) : num :=
  match fuel with
  | O => Num 0
  | S fuel' =>
      if winner_is (checkWinner b) botSymbol then Num (10 - depth)
      else if winner_is (checkWinner b) playerSymbol then Num (depth - 10)
      else if isDraw b then Num 0
      else if isMaximizing then
        fold_left
          (fun best position =>
             num_max best
               (minimax_exhaustive_fuel fuel' (makeMove b position botSymbol) (depth + 1)
                  false botSymbol playerSymbol))
          (getAvailableMoves b) NegInfinity
      else
        fold_left
          (fun best position =>
             num_min best
               (minimax_exhaustive_fuel fuel' (makeMove b position playerSymbol) (depth + 1)
                  true botSymbol playerSymbol))
          (getAvailableMoves b) Infinity
  end.

Definition minimax_exhaustive := minimax_exhaustive_fuel 10.

End Exhaustive.

(** The order of JavaScript numbers, as propositions. *)
Definition num_le (x y : num) : Prop := num_leb x y = true.
Definition num_lt (x y : num) : Prop := num_leb y x = false.

(** What a search with window [(alpha, beta)] that returns [r] says about
    the exact value [v]: a result at or below the window is an upper bound,
    one at or above it a lower bound, one inside it is exact. *)
Definition window_sound (alpha beta r v : num) : Prop :=
  (num_le r alpha -> num_le v r)
  /\ (num_le beta r -> num_le r v)
  /\ (num_lt alpha r -> num_lt r beta -> v = r).

(** [num] with its order, in the form the [order] tactic of the standard
    library expects. *)
Module NumOrder <: EqLtLe.
Definition t := num.
Definition eq := @eq num.
Definition lt := num_lt.
Definition le := num_le.
End NumOrder.

(** ** Play to the end of the game *)

Module Play.
Import GameLogic Bot.

(** Tests over the legal moves that stop at the first decisive one. *)
Fixpoint some_move (f : Z -> bool) (positions : list Z) : bool :=
  match positions with
  | [] => false
  | p :: rest => if f p then true else some_move f rest
  end.

Fixpoint every_move (f : Z -> bool) (positions : list Z) : bool :=
  match positions with
  | [] => true
  | p :: rest => if f p then every_move f rest else false
  end.

(** Whether [me] avoids a loss from board [b] when both sides play on
    optimally: on [me]'s turn some move must keep the game safe, on the
    opponent's turn every move must.  A game lasts at most nine moves, so
    ten levels of recursion are never exhausted. *)
Fixpoint avoids_loss_fuel (fuel : nat) (b : Board) (me opp : ascii) (myTurn : bool) : bool :=
  match fuel with
  | O => false
  | S fuel' =>
      if winner_is (checkWinner b) me then true
      else if winner_is (checkWinner b) opp then false
      else if GameLogic.isDraw b then true
      else if myTurn then
        some_move (fun p => avoids_loss_fuel fuel' (makeMove b p me) me opp false)
          (getAvailableMoves b)
      else
        every_move (fun p => avoids_loss_fuel fuel' (makeMove b p opp) me opp true)
          (getAvailableMoves b)
  end.

Definition avoids_loss := avoids_loss_fuel 10.

(** Boards reachable under alternating play: X starts, the symbols
    alternate, and nobody moves on a finished board. *)
Inductive reachable : Board -> Prop :=
  | reachable_empty : reachable (B "---------")
  | reachable_move (b : Board) (position : Z) :
      reachable b ->
      isOver (checkGameOver b) = false ->
      isValidMove b position = true ->
      reachable (makeMove b position (getNextSymbol b)).

(** The acting symbol and its opponent are X and O, in either order. *)
Definition sides (me opp : ascii) : Prop :=
  (me = "X"%char /\ opp = "O"%char) \/ (me = "O"%char /\ opp = "X"%char).

(** All strings of [n] characters over X, O and the empty mark. *)
Fixpoint all_boards (n : nat) : list Board :=
  match n with
  | O => [[]]
  | S n' =>
      flat_map (fun rest => ["X"%char :: rest; "O"%char :: rest; "-"%char :: rest])
        (all_boards n')
  end.

(** The property of the search engine checked on one board: the game is
    over, or [me] avoids a loss after the move of findBestMove, or [me]
    could not avoid a loss before it either. *)
Definition keeps_safe (b : Board) (me opp : ascii) : bool :=
  if isOver (checkGameOver b) then true
  else if avoids_loss (makeMove b (findBestMove b me opp) me) me opp false then true
  else negb (avoids_loss b me opp true).

(** The same for both assignments of the symbols. *)

Definition keeps_safe_both (b : Board) : bool :=
  if keeps_safe b "X"%char "O"%char then keeps_safe b "O"%char "X"%char else false.

End Play.

Module SelfPlay.
Import GameLogic Bot Play.

(** A game in which the engine plays [me] with findBestMove and the
    opponent tries every legal move: whether no line of play ends with a win
    of the opponent. *)
Fixpoint engine_holds_fuel (fuel : nat) (b : Board) (me opp : ascii) (engineTurn : bool)
    : bool :=
  match fuel with
  | O => false
  | S fuel' =>
      if winner_is (checkWinner b) me then true
      else if winner_is (checkWinner b) opp then false
      else if GameLogic.isDraw b then true
      else if engineTurn then
        engine_holds_fuel fuel' (makeMove b (findBestMove b me opp) me) me opp false
      else
        every_move (fun p => engine_holds_fuel fuel' (makeMove b p opp) me opp true)
          (getAvailableMoves b)
  end.

Definition engine_holds := engine_holds_fuel 10.

(** A nine-cell string over X, O and the empty mark. *)
Definition well_formed (b : Board) : Prop :=
  length b = 9%nat
  /\ Forall (fun ch => ch = "X"%char \/ ch = "O"%char \/ ch = "-"%char) b.

End SelfPlay.

(** ** Definitions for the further properties *)

(** The test validateBoard applies to every character. *)
Definition board_char (ch : ascii) : bool :=
  Ascii.eqb ch "X"%char || Ascii.eqb ch "O"%char || Ascii.eqb ch "-"%char.

Module RoomInvariants.
Import Rooms.
Local Open Scope string_scope.

(** No user is recorded twice as a spectator, and no spectator holds a
    seat. *)
Definition seats_ok (db : Db) : Prop :=
  List.NoDup (spectators db)
  /\ forall s, In s (spectators db) ->
       is_user (player1Id (room db)) s = false /\ is_user (player2Id (room db)) s = false.

(** A room in which no move can be accepted any more: nobody has the turn,
    or the game is finished and the second seat is empty. *)
Definition frozen (db : Db) : Prop :=
  currentTurn (room db) = None
  \/ (status (room db) = "finished" /\ player2Id (room db) = None).

(** The symbol of a seat. *)
Definition seat_symbol (role : string) : ascii :=
  if String.eqb role "player1" then "X"%char else "O"%char.

(** The stored board is reachable and, when somebody has the turn, the game
    is not over and the seat's symbol is the one to play. *)
Definition game_ok (db : Db) : Prop :=
  Play.reachable (board (room db))
  /\ forall t, currentTurn (room db) = Some t ->
       (t = "player1" \/ t = "player2")
       /\ Bot.isOver (Bot.checkGameOver (board (room db))) = false
       /\ GameLogic.getNextSymbol (board (room db)) = seat_symbol t.


End RoomInvariants.

Module BotInvariants.
Import BotRoutes.
Local Open Scope string_scope.

(** What [create] and every accepted move keep of a bot game: the human's
    symbol is X or O; the board is reachable; the game is either in progress,
    with the human to play its symbol on a board that is not over and from
    which the engine holds against every play, or finished on a board that is
    over; the human is not recorded as winner; the recorded winner is the one
    the board shows; the log has one entry for each occupied cell; and the
    version lies between half the log and the log. *)
Definition game_ok (db : Db) : Prop :=
  let g := game db in
  (playerSymbol g = "X"%char \/ playerSymbol g = "O"%char)
  /\ Play.reachable (board g)
  /\ ((status g = "in-progress" /\ currentTurn g = Some "player"
       /\ Bot.isOver (Bot.checkGameOver (board g)) = false
       /\ GameLogic.getNextSymbol (board g) = playerSymbol g
       /\ exists n, SelfPlay.engine_holds_fuel n (board g)
                      (botSymbolOf (playerSymbol g)) (playerSymbol g) false = true)
      \/ (status g = "finished" /\ currentTurn g = None
          /\ Bot.isOver (Bot.checkGameOver (board g)) = true))
  /\ winner g <> Some "player"
  /\ winner g
     = (if GameLogic.winner_is (GameLogic.checkWinner (board g)) (playerSymbol g)
        then Some "player"
        else if GameLogic.winner_is (GameLogic.checkWinner (board g))
                  (botSymbolOf (playerSymbol g))
             then Some "bot" else None)
  /\ GameLogic.countMoves (board g) = Z.of_nat (length (moves db))
  /\ version g <= Z.of_nat (length (moves db)) <= 2 * version g + 1.

End BotInvariants.

Module BotStatsQuery.
Import BotRoutes.
Local Open Scope string_scope.

(** [prisma.botGame.findMany({ where: { userId, status: 'finished' },
    select: { winner: true } })] over the rows of table [BotGame]. *)
Definition finishedGames (table : list BotGame) (user : string) : list (option string) :=
  map winner
    (List.filter (fun g => String.eqb (userId g) user && String.eqb (status g) "finished")
       table).

(** The [stats] of the answer of [GET /api/bot/user/games]. *)
Definition user_stats (table : list BotGame) (user : string) : BotStats.Stats :=
  BotStats.stats_of (finishedGames table user).

(** A row that [create] and the accepted moves of some requests wrote. *)
Definition played (g : BotGame) : Prop :=
  exists user goFirst reqs, g = game (BotRun.run (create user goFirst) reqs).

End BotStatsQuery.

(** * Properties *)

Section BoardLemmas.
Import GameLogic.

Lemma charAt_Some (b : Board) (i : Z) (ch : ascii) :
  charAt b i = Some ch -> 0 <= i /\ b !! Z.to_nat i = Some ch /\ i < Z.of_nat (length b).
Proof.
  unfold charAt. destruct (Z.ltb_spec i 0) as [|Hge]; [discriminate|].
  intros Hl. split; [lia|]. split; [exact Hl|].
  apply lookup_lt_Some in Hl. lia.
Qed.

Lemma strict_eq_Some (x : option ascii) (ch : ascii) :
  strict_eq x (Some ch) = true <-> x = Some ch.
Proof.
  destruct x as [a|]; simpl; [|split; discriminate].
  rewrite Ascii.eqb_eq. split; congruence.
Qed.

Lemma isValidMove_spec (b : Board) (position : Z) :
  isValidMove b position = true <->
  0 <= position <= 8 /\ charAt b position = Some "-"%char.
Proof.
  unfold isValidMove.
  destruct (Z.ltb_spec position 0); destruct (Z.gtb_spec position 8); simpl;
    rewrite ?strict_eq_Some; split; try discriminate; try lia; try tauto.
Qed.

Lemma makeMove_in_range (b : Board) (position : Z) (symbol : ascii) :
  0 <= position < Z.of_nat (length b) ->
  makeMove b position symbol = <[Z.to_nat position := symbol]> b.
Proof.
  intros H. unfold makeMove.
  destruct (Z.ltb_spec position 0); [lia|].
  destruct (Z.ltb_spec position (Z.of_nat (length b))); [reflexivity|lia].
Qed.

Lemma count_filter_insert (f : ascii -> bool) (b : Board) (i : nat) (old new : ascii) :
  b !! i = Some old -> f old = false -> f new = true ->
  length (List.filter f (<[i := new]> b)) = S (length (List.filter f b)).
Proof.
  intros Hl Hold Hnew.
  assert (Hb : List.filter f b = List.filter f (take i b ++ old :: drop (S i) b))
    by (rewrite take_drop_middle; auto).
  rewrite Hb, insert_take_drop by (eapply lookup_lt_Some; eauto).
  rewrite !List.filter_app. cbn [List.filter]. rewrite Hold, Hnew.
  rewrite !length_app. simpl. lia.
Qed.

Lemma countMoves_makeMove (b : Board) (position : Z) (symbol : ascii) :
  isValidMove b position = true -> symbol <> "-"%char ->
  countMoves (makeMove b position symbol) = countMoves b + 1.
Proof.
  intros Hv Hs. apply isValidMove_spec in Hv as [Hr Hc].
  apply charAt_Some in Hc as (H0 & Hl & Hlen).
  rewrite makeMove_in_range by lia. unfold countMoves.
  rewrite (count_filter_insert _ b _ "-"%char symbol Hl); [lia|reflexivity|].
  apply negb_true_iff. apply Ascii.eqb_neq. exact Hs.
Qed.

End BoardLemmas.

Section Gapless.

Lemma gapless_nil : gapless [].
Proof. reflexivity. Qed.


End Gapless.

Section RoomLog.
Import Rooms RoomRun.
Local Open Scope string_scope.
Lemma move_accepted_inv (db db' : Db) (user : string) (position : Z) (cv : option Z) :
  Game.move (Some db) user position cv = Ok db' ->
  exists role sym,
    Game.playerRole (room db) user = Some role
    /\ status (room db) <> "waiting" /\ status (room db) <> "finished"
    /\ version_conflict cv (version (room db)) = false
    /\ Game.is_turn (currentTurn (room db)) role = true
    /\ GameLogic.isValidMove (board (room db)) position = true
    /\ sym = (if String.eqb role "player1" then "X"%char else "O"%char)
    /\ board (room db') = GameLogic.makeMove (board (room db)) position sym
    /\ version (room db') = version (room db) + 1
    /\ moves db' = (moves db ++
         [ {| playerId := user; position := position; symbol := sym;
              moveOrder := GameLogic.countMoves (board (room db)) + 1 |} ])%list
    /\ spectators db' = spectators db.
Proof.
  unfold Game.move.
  destruct (String.eqb_spec (status (room db)) "waiting") as [|Hw]; [discriminate|].
  destruct (String.eqb_spec (status (room db)) "finished") as [|Hf]; [discriminate|].
  destruct (version_conflict cv (version (room db))) eqn:Hv; [discriminate|].
  destruct (Game.playerRole (room db) user) as [role|] eqn:Hr; [|discriminate].
  destruct (Game.is_turn (currentTurn (room db)) role) eqn:Ht; [|discriminate].
  destruct (GameLogic.isValidMove (board (room db)) position) eqn:Hm; [|discriminate].
  cbn [negb].
  intros H. exists role. eexists. 
  destruct (GameLogic.truthy _); [|destruct (GameLogic.isDraw _)];
    injection H as <-; cbn; repeat split; auto.
Qed.






Lemma room_run_cons (db : option Db) (req : Request) (reqs : list Request) :
  run db (req :: reqs) = run (step db req) reqs.
Proof. reflexivity. Qed.

Lemma room_run_deleted (reqs : list Request) : run None reqs = None.
Proof. induction reqs as [|req reqs IH]; [reflexivity|]. rewrite room_run_cons. exact IH. Qed.


End RoomLog.

Section BotLog.
Import BotRoutes BotRun.





End BotLog.

Section SameSnapshotMoves.
Import SameSnapshot.
Local Open Scope string_scope.

(** A room move is accepted as soon as the row read passes the guards. *)
Lemma move_accepted_intro (db : Rooms.Db) (user : string) (position : Z) (cv : option Z)
    (role : string) :
  Rooms.status (Rooms.room db) <> "waiting" ->
  Rooms.status (Rooms.room db) <> "finished" ->
  version_conflict cv (Rooms.version (Rooms.room db)) = false ->
  Game.playerRole (Rooms.room db) user = Some role ->
  Game.is_turn (Rooms.currentTurn (Rooms.room db)) role = true ->
  GameLogic.isValidMove (Rooms.board (Rooms.room db)) position = true ->
  exists db',
    Game.move (Some db) user position cv = Ok db'
    /\ Rooms.version (Rooms.room db') = Rooms.version (Rooms.room db) + 1
    /\ exists m, Rooms.moves db' = (Rooms.moves db ++ [m])%list
         /\ Rooms.position m = position
         /\ Rooms.moveOrder m = GameLogic.countMoves (Rooms.board (Rooms.room db)) + 1.
Proof.
  intros Hw Hf Hv Hr Ht Hm. unfold Game.move.
  apply String.eqb_neq in Hw, Hf. rewrite Hw, Hf, Hv, Hr, Ht, Hm. cbn [negb].
  destruct (GameLogic.truthy _); [|destruct (GameLogic.isDraw _)];
    (eexists; split; [reflexivity|]; split; [reflexivity|];
     eexists; split; [reflexivity|]; split; reflexivity).
Qed.

(** A bot-game move is accepted as soon as the row read passes the guards. *)
Lemma bot_move_accepted_intro (db : BotRoutes.Db) (user : string) (position : Z)
    (cv : option Z) :
  String.eqb (BotRoutes.userId (BotRoutes.game db)) user = true ->
  String.eqb (BotRoutes.status (BotRoutes.game db)) "finished" = false ->
  BotRoutes.not_player_turn (BotRoutes.currentTurn (BotRoutes.game db)) = false ->
  version_conflict cv (BotRoutes.version (BotRoutes.game db)) = false ->
  GameLogic.isValidMove (BotRoutes.board (BotRoutes.game db)) position = true ->
  exists db' botMove,
    BotRoutes.move (Some db) user position cv = Ok (db', botMove)
    /\ BotRoutes.version (BotRoutes.game db') = BotRoutes.version (BotRoutes.game db) + 1
    /\ exists m rest, BotRoutes.moves db' = (BotRoutes.moves db ++ m :: rest)%list
         /\ BotRoutes.position m = position
         /\ BotRoutes.moveOrder m = Z.of_nat (length (BotRoutes.moves db)) + 1.
Proof.
  intros Hu Hf Ht Hv Hm. unfold BotRoutes.move.
  rewrite Hu, Hf, Ht, Hv, Hm. cbn [negb].
  destruct (Bot.isOver (Bot.checkGameOver _)); cbn [negb]; cbv beta iota zeta;
    (eexists; eexists; split; [reflexivity|]; split; [reflexivity|];
     eexists; eexists; split; [reflexivity|]; split; reflexivity).
Qed.

Lemma bot_move_guards (db db' : BotRoutes.Db) (user : string) (position : Z)
    (cv : option Z) (botMove : option Z) :
  BotRoutes.move (Some db) user position cv = Ok (db', botMove) ->
  String.eqb (BotRoutes.userId (BotRoutes.game db)) user = true
  /\ String.eqb (BotRoutes.status (BotRoutes.game db)) "finished" = false
  /\ BotRoutes.not_player_turn (BotRoutes.currentTurn (BotRoutes.game db)) = false
  /\ version_conflict cv (BotRoutes.version (BotRoutes.game db)) = false.
Proof.
  unfold BotRoutes.move.
  destruct (String.eqb _ user); [|discriminate].
  destruct (String.eqb _ "finished"); [discriminate|].
  destruct (BotRoutes.not_player_turn _); [discriminate|].
  destruct (version_conflict _ _); [discriminate|].
  auto.
Qed.

Lemma committed_cons_Ok {E A : Type} (a : A) (answers : list (result E A)) :
  committed (Ok a :: answers) = S (committed answers).
Proof. reflexivity. Qed.

(** C1: move calls whose transactions all read the same rows are all
    answered from those rows, and nothing later makes one of them fail.  When
    one call of a user is accepted on the rows read, every call of that user
    with the same expected version that names a free cell of the board read
    is accepted too: N such calls give N successes, not one, none of them is
    answered [VERSION_CONFLICT], each answers the version read plus one, and
    each creates a log entry with the same sequence number.  The same holds of
    the moves of a bot game. *)
Theorem same_snapshot_moves_all_commit :
  (forall (db db1 : Rooms.Db) (user : string) (cv : option Z) (position : Z)
          (positions : list Z),
      Game.move (Some db) user position cv = Ok db1 ->
      Forall (fun p => GameLogic.isValidMove (Rooms.board (Rooms.room db)) p = true)
        positions ->
      committed (room_answers db user cv positions) = length positions
      /\ Forall (fun a =>
           exists db', a = Ok db'
             /\ Rooms.version (Rooms.room db') = Rooms.version (Rooms.room db) + 1
             /\ exists m, Rooms.moves db' = (Rooms.moves db ++ [m])%list
                  /\ Rooms.moveOrder m
                     = GameLogic.countMoves (Rooms.board (Rooms.room db)) + 1)
           (room_answers db user cv positions))
  /\ (forall (db db1 : BotRoutes.Db) (botMove : option Z) (user : string) (cv : option Z)
             (position : Z) (positions : list Z),
        BotRoutes.move (Some db) user position cv = Ok (db1, botMove) ->
        Forall (fun p => GameLogic.isValidMove (BotRoutes.board (BotRoutes.game db)) p = true)
          positions ->
        committed (bot_answers db user cv positions) = length positions
        /\ Forall (fun a =>
             exists db' reply, a = Ok (db', reply)
               /\ BotRoutes.version (BotRoutes.game db')
                  = BotRoutes.version (BotRoutes.game db) + 1
               /\ exists m rest, BotRoutes.moves db' = (BotRoutes.moves db ++ m :: rest)%list
                    /\ BotRoutes.moveOrder m = Z.of_nat (length (BotRoutes.moves db)) + 1)
             (bot_answers db user cv positions)).
Proof.
  split.
  - intros db db1 user cv position positions Hm Hfree.
    destruct (move_accepted_inv _ _ _ _ _ Hm)
      as (role & sym & Hr & Hw & Hf & Hv & Ht & _).
    induction Hfree as [|p positions Hp Hfree [IHn IHall]]; [split; [reflexivity|constructor]|].
    destruct (move_accepted_intro db user p cv role Hw Hf Hv Hr Ht Hp)
      as (db' & Hok & Hver & m & Hmoves & _ & Horder).
    unfold room_answers in *. cbn [map]. rewrite Hok, committed_cons_Ok, IHn.
    split; [reflexivity|]. constructor; [|exact IHall].
    exists db'. split; [reflexivity|]. split; [exact Hver|]. exists m. auto.
  - intros db db1 botMove user cv position positions Hm Hfree.
    destruct (bot_move_guards _ _ _ _ _ _ Hm) as (Hu & Hf & Ht & Hv).
    induction Hfree as [|p positions Hp Hfree [IHn IHall]]; [split; [reflexivity|constructor]|].
    destruct (bot_move_accepted_intro db user p cv Hu Hf Ht Hv Hp)
      as (db' & reply & Hok & Hver & m & rest & Hmoves & _ & Horder).
    unfold bot_answers in *. cbn [map]. rewrite Hok, committed_cons_Ok, IHn.
    split; [reflexivity|]. constructor; [|exact IHall].
    exists db', reply. split; [reflexivity|]. split; [exact Hver|]. exists m, rest. auto.
Qed.

Lemma same_snapshot_moves_all_commit_witness :
  let db := Rooms.join (Rooms.create "alice") "bob" in
  (exists db1, Game.move (Some db) "alice" 4 (Some 0) = Ok db1)
  /\ Forall (fun p => GameLogic.isValidMove (Rooms.board (Rooms.room db)) p = true) [4; 0]
  /\ committed (room_answers db "alice" (Some 0) [4; 0]) = 2%nat.
Proof.
  cbv zeta.
  assert (Hm : Game.move (Some (Rooms.join (Rooms.create "alice") "bob")) "alice" 4 (Some 0)
               = Ok {| Rooms.room :=
                         {| Rooms.status := "in-progress";
                            Rooms.player1Id := Some "alice";
                            Rooms.player2Id := Some "bob";
                            Rooms.currentTurn := Some "player2";
                            Rooms.board := B "----X----";
                            Rooms.winnerId := None;
                            Rooms.isDraw := false;
                            Rooms.version := 1 |};
                       Rooms.moves :=
                         [ {| Rooms.playerId := "alice"; Rooms.position := 4;
                              Rooms.symbol := "X"%char; Rooms.moveOrder := 1 |} ];
                       Rooms.spectators := [] |}) by reflexivity.
  assert (Hfree : Forall (fun p => GameLogic.isValidMove
                            (Rooms.board (Rooms.room (Rooms.join (Rooms.create "alice") "bob")))
                            p = true) [4; 0])
    by (repeat constructor).
  split; [eexists; exact Hm|]. split; [exact Hfree|].
  exact (proj1 (proj1 same_snapshot_moves_all_commit _ _ _ _ _ _ Hm Hfree)).
Defined.

End SameSnapshotMoves.

Section RoomForfeit.
Import Rooms.
Local Open Scope string_scope.

(** What the forfeit branch of [leave] writes: the turn is not among the
    columns it updates. *)
Lemma leave_forfeit (db : Db) (user : string) :
  is_user (player1Id (room db)) user = false ->
  is_user (player2Id (room db)) user = true ->
  status (room db) = "in-progress" ->
  exists db', leave db user = Some db'
    /\ status (room db') = "finished"
    /\ winnerId (room db') = player1Id (room db)
    /\ player2Id (room db') = None
    /\ currentTurn (room db') = currentTurn (room db).
Proof.
  intros H1 H2 Hs. unfold leave. rewrite H1, H2, Hs. simpl.
  eexists. split; [reflexivity|]. simpl. auto.
Qed.

(** C3 (the code at the failing input): alice creates a room, bob joins and
    then leaves the match in progress; the match is finished and alice has
    won, but the stored turn is still ['player1'], not [null]. *)
Theorem forfeit_keeps_current_turn :
  exists db',
    leave (join (create "alice") "bob") "bob" = Some db'
    /\ status (room (join (create "alice") "bob")) = "in-progress"
    /\ status (room db') = "finished"
    /\ winnerId (room db') = Some "alice"
    /\ player2Id (room db') = None
    /\ currentTurn (room db') = Some "player1".
Proof. eexists. split; [reflexivity|]. repeat split. Qed.

End RoomForfeit.

Section BotMoveChecks.
Import BotRoutes BotChecks.
Local Open Scope string_scope.

(** C4 (as stated, refuted): a request with a stale version that also fails
    the ownership check is not answered with VERSION_CONFLICT. *)
Lemma bot_move_stale_version_not_first :
  ~ (forall (db : Db) (user : string) (position : Z) (v : Z),
       version_conflict (Some v) (version (game db)) = true ->
       fails db user position (Some v) NOT_YOUR_GAME = true
       \/ fails db user position (Some v) NOT_YOUR_TURN = true ->
       move (Some db) user position (Some v) = Err VERSION_CONFLICT).
Proof.
  intros H.
  specialize (H (create "alice" None) "mallory" 0 7).
  assert (Hm : move (Some (create "alice" None)) "mallory" 0 (Some 7) = Err NOT_YOUR_GAME)
    by reflexivity.
  rewrite Hm in H. discriminate H; [reflexivity | left; reflexivity].
Qed.

(** C4 (amended): the handler reports the first failed check in the order
    NOT_YOUR_GAME, GAME_FINISHED, NOT_YOUR_TURN, VERSION_CONFLICT,
    INVALID_MOVE; the finished check comes before the version check, the
    ownership and turn checks come before it too. *)
Theorem bot_move_reports_first_failed_check
    (db : Db) (user : string) (position : Z) (clientVersion : option Z) (e : MoveError) :
  find (fails db user position clientVersion) check_order = Some e ->
  move (Some db) user position clientVersion = Err e.
Proof.
  unfold check_order, move. cbn [find fails].
  destruct (negb (String.eqb (userId (game db)) user)); [congruence|].
  destruct (String.eqb (status (game db)) "finished"); [congruence|].
  destruct (not_player_turn (currentTurn (game db))); [congruence|].
  destruct (version_conflict clientVersion (version (game db))); [congruence|].
  destruct (negb (GameLogic.isValidMove (board (game db)) position)); [congruence|].
  discriminate.
Qed.

Lemma bot_move_reports_first_failed_check_witness :
  find (fails (create "alice" None) "mallory" 0 (Some 7)) check_order = Some NOT_YOUR_GAME
  /\ fails (create "alice" None) "mallory" 0 (Some 7) VERSION_CONFLICT = true
  /\ move (Some (create "alice" None)) "mallory" 0 (Some 7) = Err NOT_YOUR_GAME.
Proof.
  split; [reflexivity|]. split; [reflexivity|].
  apply (bot_move_reports_first_failed_check (create "alice" None) "mallory" 0 (Some 7)).
  reflexivity.
Defined.

(** When no check fails the move is accepted. *)
Lemma bot_move_accepted_when_no_check_fails
    (db : Db) (user : string) (position : Z) (clientVersion : option Z) :
  find (fails db user position clientVersion) check_order = None ->
  exists r, move (Some db) user position clientVersion = Ok r.
Proof.
  unfold check_order, move. cbn [find fails].
  destruct (negb (String.eqb (userId (game db)) user)); [congruence|].
  destruct (String.eqb (status (game db)) "finished"); [congruence|].
  destruct (not_player_turn (currentTurn (game db))); [congruence|].
  destruct (version_conflict clientVersion (version (game db))); [congruence|].
  destruct (negb (GameLogic.isValidMove (board (game db)) position)); [congruence|].
  intros _.
  destruct (negb (Bot.isOver _)); eexists; reflexivity.
Qed.

End BotMoveChecks.

Section RoomVersion.
Import Rooms.
Local Open Scope string_scope.






End RoomVersion.

Section BotTurn.
Import BotRoutes.
Local Open Scope string_scope.

(** C10: after [create] it is the human's turn, also when the bot has
    opened; after an accepted move it is the human's turn in a game still in
    progress and nobody's in a finished one.  The bot's reply is part of the
    same move: it is missing exactly when the human's move ended the
    game. *)
Theorem bot_game_turn_is_never_the_bots :
  (forall user goFirst,
      currentTurn (game (create user goFirst)) = Some "player"
      /\ status (game (create user goFirst)) = "in-progress")
  /\ (forall db user position cv db' botMove,
        move (Some db) user position cv = Ok (db', botMove) ->
        ((currentTurn (game db') = Some "player" /\ status (game db') = "in-progress")
         \/ (currentTurn (game db') = None /\ status (game db') = "finished"))
        /\ currentTurn (game db') <> Some "bot"
        /\ (botMove = None <->
            Bot.isOver (Bot.checkGameOver
              (GameLogic.makeMove (board (game db)) position (playerSymbol (game db)))) = true)).
Proof.
  split.
  - intros user goFirst. unfold create.
    destruct goFirst as [[|]|]; split; reflexivity.
  - intros db user position cv db' botMove. unfold move.
    destruct (negb (String.eqb _ _)); [discriminate|].
    destruct (String.eqb _ _); [discriminate|].
    destruct (not_player_turn _); [discriminate|].
    destruct (version_conflict _ _); [discriminate|].
    destruct (negb (GameLogic.isValidMove _ _)); [discriminate|].
    set (b1 := GameLogic.makeMove (board (game db)) position (playerSymbol (game db))).
    destruct (Bot.isOver (Bot.checkGameOver b1)) eqn:Hover; cbn [negb].
    + rewrite Hover. intros H; inversion H; subst; clear H. cbn.
      repeat split; auto; try discriminate.
    + set (b2 := GameLogic.makeMove b1 _ _).
      destruct (Bot.isOver (Bot.checkGameOver b2)) eqn:Hover2;
        intros H; inversion H; subst; clear H; cbn;
        repeat split; auto; try discriminate; intros; discriminate.
Qed.

Lemma bot_game_turn_is_never_the_bots_witness :
  exists db' botMove,
    move (Some (create "alice" (Some false))) "alice" 0 (Some 0) = Ok (db', botMove)
    /\ currentTurn (game db') <> Some "bot".
Proof.
  eexists. eexists. split; [vm_compute; reflexivity|].
  eapply (proj2 bot_game_turn_is_never_the_bots
            (create "alice" (Some false)) "alice" 0 (Some 0)).
  vm_compute. reflexivity.
Defined.

End BotTurn.

Section Winner.
Import GameLogic.

Lemma strict_eq_true (x y : option ascii) : strict_eq x y = true <-> x = y.
Proof.
  destruct x as [a|], y as [c|]; simpl; try (split; [discriminate|congruence]).
  - rewrite Ascii.eqb_eq. split; congruence.
  - tauto.
Qed.

Lemma line_complete_spec (b : Board) (x y z : Z) :
  line_complete b (x, y, z) = true <->
  charAt b x <> Some "-"%char /\ charAt b x = charAt b y /\ charAt b y = charAt b z.
Proof.
  unfold line_complete. rewrite !andb_true_iff, negb_true_iff, !strict_eq_true.
  rewrite <- not_true_iff_false, strict_eq_true. tauto.
Qed.

Lemma checkWinner_Some (b : Board) (w : option ascii) :
  checkWinner b = Some w ->
  exists x y z, In (x, y, z) WINNING_COMBINATIONS
    /\ line_complete b (x, y, z) = true /\ w = charAt b x.
Proof.
  unfold checkWinner.
  destruct (find (line_complete b) WINNING_COMBINATIONS) as [[[x y] z]|] eqn:Hf;
    [|discriminate].
  intros [= <-]. apply find_some in Hf as [Hin Hl]. exists x, y, z. auto.
Qed.

Lemma checkWinner_None (b : Board) (t : Z * Z * Z) :
  checkWinner b = None -> In t WINNING_COMBINATIONS -> line_complete b t = false.
Proof.
  unfold checkWinner.
  destruct (find (line_complete b) WINNING_COMBINATIONS) as [[[x y] z]|] eqn:Hf;
    [discriminate|].
  intros _ Hin. exact (find_none _ _ Hf t Hin).
Qed.

Lemma length_makeMove_in_range (b : Board) (position : Z) (symbol : ascii) :
  position < Z.of_nat (length b) -> length (makeMove b position symbol) = length b.
Proof.
  intros H. unfold makeMove.
  destruct (Z.ltb_spec position 0); [reflexivity|].
  destruct (Z.ltb_spec position (Z.of_nat (length b))); [|lia].
  apply length_insert.
Qed.

(** A cell other than the one played keeps its content, as long as it lies
    inside the board. *)
Lemma charAt_makeMove_ne (b : Board) (position i : Z) (symbol : ascii) :
  i <> position -> i < Z.of_nat (length b) ->
  charAt (makeMove b position symbol) i = charAt b i.
Proof.
  intros Hne Hi. unfold makeMove, charAt.
  destruct (Z.ltb_spec i 0); [reflexivity|].
  destruct (Z.ltb_spec position 0); [reflexivity|].
  destruct (Z.ltb_spec position (Z.of_nat (length b))).
  - apply list_lookup_insert_ne. lia.
  - apply lookup_app_l. lia.
Qed.

Lemma charAt_makeMove_eq (b : Board) (position : Z) (symbol : ascii) :
  0 <= position < Z.of_nat (length b) ->
  charAt (makeMove b position symbol) position = Some symbol.
Proof.
  intros H. rewrite makeMove_in_range by exact H. unfold charAt.
  destruct (Z.ltb_spec position 0); [lia|].
  apply list_lookup_insert_eq. lia.
Qed.

Lemma winning_combination_in_range (x y z : Z) :
  In (x, y, z) WINNING_COMBINATIONS -> 0 <= x < 9 /\ 0 <= y < 9 /\ 0 <= z < 9.
Proof.
  unfold WINNING_COMBINATIONS. simpl.
  intuition (match goal with H : (_, _, _) = (_, _, _) |- _ => injection H as <- <- <- end; lia).
Qed.

(** C6 (as stated, refuted): on the board XXXOO----, which X has already
    won, placing O at cell 8 still yields a winner, and O completed
    nothing. *)
Lemma winner_without_completed_triple :
  ~ (forall (b : Board) (c : Z) (s : ascii) (w : option ascii),
       checkWinner (makeMove b c s) = Some w ->
       exists x y z, In (x, y, z) WINNING_COMBINATIONS
         /\ (c = x \/ c = y \/ c = z)
         /\ charAt (makeMove b c s) x = Some s
         /\ charAt (makeMove b c s) y = Some s
         /\ charAt (makeMove b c s) z = Some s).
Proof.
  intros H.
  destruct (H (B "XXXOO----") 8 "O"%char (Some "X"%char) eq_refl)
    as (x & y & z & Hin & _ & Hx & Hy & Hz).
  unfold WINNING_COMBINATIONS in Hin. simpl in Hin.
  repeat (destruct Hin as [Hin|Hin]; [injection Hin as <- <- <-; discriminate|]).
  exact Hin.
Qed.

(** C6 (amended): on a nine-cell board without a winner, a placement
    yields a winner only if it is the symbol placed and one of the eight
    triples through the cell played now holds that symbol three times. *)
Theorem winner_only_by_completing_a_triple
    (b : Board) (c : Z) (s : ascii) (w : option ascii) :
  length b = 9%nat ->
  checkWinner b = None ->
  checkWinner (makeMove b c s) = Some w ->
  w = Some s
  /\ exists x y z, In (x, y, z) WINNING_COMBINATIONS
       /\ (c = x \/ c = y \/ c = z)
       /\ charAt (makeMove b c s) x = Some s
       /\ charAt (makeMove b c s) y = Some s
       /\ charAt (makeMove b c s) z = Some s.
Proof.
  intros Hlen Hnone Hw.
  apply checkWinner_Some in Hw as (x & y & z & Hin & Hl & ->).
  pose proof (winning_combination_in_range _ _ _ Hin) as (Hx & Hy & Hz).
  pose proof (checkWinner_None b _ Hnone Hin) as Hold.
  assert (Hc : c = x \/ c = y \/ c = z).
  { destruct (Z.eq_dec c x); [tauto|]. destruct (Z.eq_dec c y); [tauto|].
    destruct (Z.eq_dec c z); [tauto|]. exfalso.
    apply line_complete_spec in Hl.
    rewrite !charAt_makeMove_ne in Hl by lia.
    apply line_complete_spec in Hl. congruence. }
  assert (Hrange : 0 <= c < Z.of_nat (length b)) by lia.
  pose proof (charAt_makeMove_eq b c s Hrange) as Hcell.
  apply line_complete_spec in Hl as (_ & Hxy & Hyz).
  assert (Hall : charAt (makeMove b c s) x = Some s
                 /\ charAt (makeMove b c s) y = Some s
                 /\ charAt (makeMove b c s) z = Some s).
  { destruct Hc as [->|[->| ->]]; repeat split; congruence. }
  split; [tauto|]. exists x, y, z. tauto.
Qed.

Lemma winner_only_by_completing_a_triple_witness :
  length (B "XX-OO----") = 9%nat
  /\ checkWinner (B "XX-OO----") = None
  /\ checkWinner (makeMove (B "XX-OO----") 2 "X"%char) = Some (Some "X"%char)
  /\ exists x y z, In (x, y, z) WINNING_COMBINATIONS
       /\ (2 = x \/ 2 = y \/ 2 = z)
       /\ charAt (makeMove (B "XX-OO----") 2 "X"%char) x = Some "X"%char
       /\ charAt (makeMove (B "XX-OO----") 2 "X"%char) y = Some "X"%char
       /\ charAt (makeMove (B "XX-OO----") 2 "X"%char) z = Some "X"%char.
Proof.
  split; [reflexivity|]. split; [reflexivity|]. split; [reflexivity|].
  apply (winner_only_by_completing_a_triple (B "XX-OO----") 2 "X"%char (Some "X"%char));
    reflexivity.
Defined.

End Winner.

(** [num] is a total order. *)
Module NumTotal <: IsTotalOrder NumOrder.

Lemma eq_equiv : Equivalence NumOrder.eq.
Proof. unfold NumOrder.eq. split; congruence. Qed.

Lemma lt_strorder : StrictOrder NumOrder.lt.
Proof.
  split.
  - intros [|x|]; unfold complement, NumOrder.lt, num_lt; simpl; try discriminate.
    rewrite Z.leb_refl. discriminate.
  - intros [|x|] [|y|] [|z|]; unfold NumOrder.lt, num_lt; simpl; try discriminate; auto.
    rewrite !Z.leb_gt. lia.
Qed.

Lemma lt_compat : Proper (NumOrder.eq ==> NumOrder.eq ==> iff) NumOrder.lt.
Proof. intros x x' -> y y' ->. reflexivity. Qed.

Lemma le_lteq (x y : num) : NumOrder.le x y <-> NumOrder.lt x y \/ NumOrder.eq x y.
Proof.
  unfold NumOrder.le, NumOrder.lt, NumOrder.eq, num_le, num_lt.
  destruct x as [|x|], y as [|y|]; simpl;
    try (split; [auto; fail | intros [?|?]; auto; discriminate]);
    try (split; [discriminate | intros [?|?]; discriminate]).
  rewrite Z.leb_le, Z.leb_gt. split.
  - intros H. destruct (Z.eq_dec x y); [right; congruence | left; lia].
  - intros [H|H]; [lia | injection H; lia].
Qed.

Lemma lt_total (x y : num) : NumOrder.lt x y \/ NumOrder.eq x y \/ NumOrder.lt y x.
Proof.
  unfold NumOrder.lt, NumOrder.eq, num_lt.
  destruct x as [|x|], y as [|y|]; simpl; auto.
  rewrite !Z.leb_gt. destruct (Z.lt_total x y) as [H|[H|H]]; auto.
  right; left; congruence.
Qed.

End NumTotal.

Module NumTac := MakeOrderTac NumOrder NumTotal.

(** Goals about [Math.max], [Math.min] and the window: split on every
    comparison, use every implication, and leave the rest to [order]. *)
Ltac num_order :=
  unfold window_sound, num_max, num_min in *;
  repeat match goal with
         | H : _ /\ _ |- _ => destruct H
         | |- context [if num_leb ?x ?y then _ else _] =>
             let E := fresh "E" in destruct (num_leb x y) eqn:E
         | H : context [if num_leb ?x ?y then _ else _] |- _ =>
             let E := fresh "E" in destruct (num_leb x y) eqn:E
         end;
  repeat match goal with
         | H : num_le ?a ?b -> _ |- _ =>
             let E := fresh "E" in
             destruct (num_leb a b) eqn:E; [specialize (H E) | clear H]
         | H : num_lt ?a ?b -> _ |- _ =>
             let E := fresh "E" in
             destruct (num_leb b a) eqn:E; [clear H | specialize (H E)]
         end;
  repeat match goal with
         | H : num_leb ?x ?y = true |- _ => change (num_le x y) in H
         | H : num_leb ?x ?y = false |- _ => change (num_lt y x) in H
         end;
  repeat split; intros; try discriminate; NumTac.order.

Section NumFacts.

Lemma num_le_refl (x : num) : num_le x x.
Proof. NumTac.order. Qed.

Lemma num_le_trans (x y z : num) : num_le x y -> num_le y z -> num_le x z.
Proof. intros; NumTac.order. Qed.

Lemma num_max_ge_l (x y : num) : num_le x (num_max x y).
Proof. num_order. Qed.

Lemma num_min_le_l (x y : num) : num_le (num_min x y) x.
Proof. num_order. Qed.

Lemma num_max_NegInfinity (x : num) : x = num_max x NegInfinity.
Proof. destruct x; reflexivity. Qed.

Lemma num_min_Infinity (x : num) : x = num_min x Infinity.
Proof. destruct x; reflexivity. Qed.

Lemma num_le_NegInfinity (x : num) : num_le x NegInfinity -> x = NegInfinity.
Proof. destruct x; [reflexivity|discriminate|discriminate]. Qed.

Lemma num_le_Infinity (x : num) : num_le Infinity x -> x = Infinity.
Proof. destruct x; [discriminate|discriminate|reflexivity]. Qed.

Lemma window_full (r v : num) : window_sound NegInfinity Infinity r v -> r = v.
Proof.
  intros (H1 & H2 & H3). destruct r.
  - symmetry. apply num_le_NegInfinity, H1. reflexivity.
  - symmetry. apply H3; reflexivity.
  - symmetry. apply num_le_Infinity, H2. reflexivity.
Qed.

Lemma window_exact (alpha beta x : num) : window_sound alpha beta x x.
Proof. unfold window_sound. repeat split; intros; auto using num_le_refl. Qed.

End NumFacts.

Section Loops.
Import Bot.

Variable child : Z -> num -> num -> num.
Variable full : Z -> num.
Variable alpha0 beta0 : num.

Lemma fold_max_ge (positions : list Z) (acc : num) :
  num_le acc (fold_left (fun best p => num_max best (full p)) positions acc).
Proof.
  revert acc. induction positions as [|p rest IH]; intros acc; simpl.
  - apply num_le_refl.
  - eapply num_le_trans; [apply num_max_ge_l | apply IH].
Qed.

Lemma fold_min_le (positions : list Z) (acc : num) :
  num_le (fold_left (fun best p => num_min best (full p)) positions acc) acc.
Proof.
  revert acc. induction positions as [|p rest IH]; intros acc; simpl.
  - apply num_le_refl.
  - eapply num_le_trans; [apply IH | apply num_min_le_l].
Qed.

(** One turn of the maximising loop that cuts: the score that closes the
    window is a lower bound of the exact value. *)
Lemma max_cut_sound (maxScore best score value rest : num) :
  num_lt (num_max alpha0 maxScore) beta0 ->
  window_sound (num_max alpha0 maxScore) beta0 score value ->
  num_le beta0 (num_max (num_max alpha0 maxScore) score) ->
  num_le (num_max best value) rest ->
  window_sound alpha0 beta0 (num_max maxScore score) rest.
Proof. intros Hlt Hp Hcut Hge. num_order. Qed.

(** One turn that does not cut keeps the relation between the best score
    and the exact best value. *)
Lemma max_step_low (maxScore best score value : num) :
  window_sound (num_max alpha0 maxScore) beta0 score value ->
  (num_le maxScore alpha0 -> num_le best maxScore) ->
  num_le (num_max maxScore score) alpha0 ->
  num_le (num_max best value) (num_max maxScore score).
Proof. intros Hp Hlow H. num_order. Qed.

Lemma max_step_exact (maxScore best score value : num) :
  window_sound (num_max alpha0 maxScore) beta0 score value ->
  num_lt (num_max (num_max alpha0 maxScore) score) beta0 ->
  (num_le maxScore alpha0 -> num_le best maxScore) ->
  (num_lt alpha0 maxScore -> best = maxScore) ->
  num_lt alpha0 (num_max maxScore score) ->
  num_max best value = num_max maxScore score.
Proof. intros Hp Hcut Hlow Hexact H. num_order. Qed.

Lemma max_done_sound (maxScore best : num) :
  num_lt (num_max alpha0 maxScore) beta0 ->
  (num_le maxScore alpha0 -> num_le best maxScore) ->
  (num_lt alpha0 maxScore -> best = maxScore) ->
  window_sound alpha0 beta0 maxScore best.
Proof. intros Hlt Hlow Hexact. num_order. Qed.

Lemma num_max_assoc (x y z : num) : num_max (num_max x y) z = num_max x (num_max y z).
Proof. num_order. Qed.

(** The maximising loop, entered with the best score [maxScore] and the
    exact best value [best] of the positions already tried. *)
Lemma max_loop_sound (positions : list Z) :
  (forall p a b, In p positions -> num_lt a b -> window_sound a b (child p a b) (full p)) ->
  forall maxScore alpha best,
    num_lt alpha beta0 ->
    alpha = num_max alpha0 maxScore ->
    (num_le maxScore alpha0 -> num_le best maxScore) ->
    (num_lt alpha0 maxScore -> best = maxScore) ->
    window_sound alpha0 beta0
      (max_loop child positions maxScore alpha beta0)
      (fold_left (fun best p => num_max best (full p)) positions best).
Proof.
  induction positions as [|p rest IH]; intros Hchild maxScore alpha best Hlt Ha Hlow Hexact.
  - subst alpha. apply max_done_sound; assumption.
  - cbn [max_loop fold_left].
    pose proof (Hchild p alpha beta0 (or_introl eq_refl) Hlt) as Hp.
    subst alpha.
    destruct (num_leb beta0 (num_max (num_max alpha0 maxScore)
                               (child p (num_max alpha0 maxScore) beta0))) eqn:Hcut.
    + eapply max_cut_sound; eauto. apply fold_max_ge.
    + apply IH.
      * intros q a b Hq. apply Hchild. right. exact Hq.
      * exact Hcut.
      * apply num_max_assoc.
      * intros H. eapply max_step_low; eauto.
      * intros H. eapply max_step_exact; eauto.
Qed.

Lemma min_cut_sound (minScore best score value rest : num) :
  num_lt alpha0 (num_min beta0 minScore) ->
  window_sound alpha0 (num_min beta0 minScore) score value ->
  num_le (num_min (num_min beta0 minScore) score) alpha0 ->
  num_le rest (num_min best value) ->
  window_sound alpha0 beta0 (num_min minScore score) rest.
Proof. intros Hlt Hp Hcut Hle. num_order. Qed.

Lemma min_step_high (minScore best score value : num) :
  window_sound alpha0 (num_min beta0 minScore) score value ->
  (num_le beta0 minScore -> num_le minScore best) ->
  num_le beta0 (num_min minScore score) ->
  num_le (num_min minScore score) (num_min best value).
Proof. intros Hp Hhigh H. num_order. Qed.

Lemma min_step_exact (minScore best score value : num) :
  window_sound alpha0 (num_min beta0 minScore) score value ->
  num_lt alpha0 (num_min (num_min beta0 minScore) score) ->
  (num_le beta0 minScore -> num_le minScore best) ->
  (num_lt minScore beta0 -> best = minScore) ->
  num_lt (num_min minScore score) beta0 ->
  num_min best value = num_min minScore score.
Proof. intros Hp Hcut Hhigh Hexact H. num_order. Qed.

Lemma min_done_sound (minScore best : num) :
  num_lt alpha0 (num_min beta0 minScore) ->
  (num_le beta0 minScore -> num_le minScore best) ->
  (num_lt minScore beta0 -> best = minScore) ->
  window_sound alpha0 beta0 minScore best.
Proof. intros Hlt Hhigh Hexact. num_order. Qed.

Lemma num_min_assoc (x y z : num) : num_min (num_min x y) z = num_min x (num_min y z).
Proof. num_order. Qed.

Lemma min_loop_sound (positions : list Z) :
  (forall p a b, In p positions -> num_lt a b -> window_sound a b (child p a b) (full p)) ->
  forall minScore beta best,
    num_lt alpha0 beta ->
    beta = num_min beta0 minScore ->
    (num_le beta0 minScore -> num_le minScore best) ->
    (num_lt minScore beta0 -> best = minScore) ->
    window_sound alpha0 beta0
      (min_loop child positions minScore alpha0 beta)
      (fold_left (fun best p => num_min best (full p)) positions best).
Proof.
  induction positions as [|p rest IH]; intros Hchild minScore beta best Hlt Hb Hhigh Hexact.
  - subst beta. apply min_done_sound; assumption.
  - cbn [min_loop fold_left].
    pose proof (Hchild p alpha0 beta (or_introl eq_refl) Hlt) as Hp.
    subst beta.
    destruct (num_leb (num_min (num_min beta0 minScore)
                         (child p alpha0 (num_min beta0 minScore))) alpha0) eqn:Hcut.
    + eapply min_cut_sound; eauto. apply fold_min_le.
    + apply IH.
      * intros q a b Hq. apply Hchild. right. exact Hq.
      * exact Hcut.
      * apply num_min_assoc.
      * intros H. eapply min_step_high; eauto.
      * intros H. eapply min_step_exact; eauto.
Qed.

End Loops.

Section AlphaBeta.
Import GameLogic Bot Exhaustive.

Variable botSymbol playerSymbol : ascii.

(** Whatever the window, the pruned search is sound for the exhaustive
    value, at every recursion depth. *)
Lemma minimax_window_sound (fuel : nat) :
  forall (b : Board) (depth : Z) (isMaximizing : bool) (alpha beta : num),
    num_lt alpha beta ->
    window_sound alpha beta
      (minimax_fuel fuel b depth isMaximizing alpha beta botSymbol playerSymbol)
      (minimax_exhaustive_fuel fuel b depth isMaximizing botSymbol playerSymbol).
Proof.
  induction fuel as [|fuel IH]; intros b depth isMaximizing alpha beta Hlt.
  - apply window_exact.
  - cbn [minimax_fuel minimax_exhaustive_fuel].
    destruct (winner_is (checkWinner b) botSymbol); [apply window_exact|].
    destruct (winner_is (checkWinner b) playerSymbol); [apply window_exact|].
    destruct (GameLogic.isDraw b); [apply window_exact|].
    destruct isMaximizing.
    + apply (max_loop_sound
               (fun position a b' =>
                  minimax_fuel fuel (makeMove b position botSymbol) (depth + 1) false a b'
                    botSymbol playerSymbol)
               (fun position =>
                  minimax_exhaustive_fuel fuel (makeMove b position botSymbol) (depth + 1)
                    false botSymbol playerSymbol)).
      * intros p a b' _ Hab. apply IH, Hab.
      * exact Hlt.
      * apply num_max_NegInfinity.
      * intros _. reflexivity.
      * intros H. discriminate H.
    + apply (min_loop_sound
               (fun position a b' =>
                  minimax_fuel fuel (makeMove b position playerSymbol) (depth + 1) true a b'
                    botSymbol playerSymbol)
               (fun position =>
                  minimax_exhaustive_fuel fuel (makeMove b position playerSymbol) (depth + 1)
                    true botSymbol playerSymbol)).
      * intros p a b' _ Hab. apply IH, Hab.
      * exact Hlt.
      * apply num_min_Infinity.
      * intros _. apply num_le_refl.
      * intros H. destruct beta; discriminate H.
Qed.

End AlphaBeta.

(** C8: called with the full window, minimax with alpha-beta pruning
    returns the score of exhaustive minimax, for every board, depth, side to
    move and pair of symbols. *)
Theorem minimax_pruning_preserves_score
    (b : Board) (depth : Z) (isMaximizing : bool) (botSymbol playerSymbol : ascii) :
  Bot.minimax b depth isMaximizing NegInfinity Infinity botSymbol playerSymbol
  = Exhaustive.minimax_exhaustive b depth isMaximizing botSymbol playerSymbol.
Proof.
  apply window_full. apply minimax_window_sound. reflexivity.
Qed.

Section Available.
Import GameLogic.

Lemma getAvailableMoves_spec (b : Board) (p : Z) :
  In p (getAvailableMoves b) <-> 0 <= p <= 8 /\ charAt b p = Some "-"%char.
Proof.
  unfold getAvailableMoves. rewrite List.filter_In, strict_eq_Some.
  split; intros [H1 H2]; split; auto.
  - simpl in H1. lia.
  - simpl. lia.
Qed.

Lemma getAvailableMoves_valid (b : Board) (p : Z) :
  In p (getAvailableMoves b) <-> isValidMove b p = true.
Proof. rewrite getAvailableMoves_spec, isValidMove_spec. reflexivity. Qed.

Lemma getAvailableMoves_length (b : Board) : (length (getAvailableMoves b) <= 9)%nat.
Proof. unfold getAvailableMoves. apply (List.filter_length_le _ [0;1;2;3;4;5;6;7;8]). Qed.

Lemma filter_length_le_impl {A : Type} (f g : A -> bool) (l : list A) :
  (forall y, In y l -> g y = true -> f y = true) ->
  (length (List.filter g l) <= length (List.filter f l))%nat.
Proof.
  induction l as [|a l IH]; intros H; simpl; [lia|].
  assert (IH' := IH (fun y Hy => H y (or_intror Hy))).
  destruct (g a) eqn:Hg.
  - rewrite (H a (or_introl eq_refl) Hg). simpl. lia.
  - destruct (f a); simpl; lia.
Qed.

Lemma filter_length_lt_impl {A : Type} (f g : A -> bool) (l : list A) (x : A) :
  In x l -> f x = true -> g x = false ->
  (forall y, In y l -> g y = true -> f y = true) ->
  (length (List.filter g l) < length (List.filter f l))%nat.
Proof.
  induction l as [|a l IH]; intros Hin Hf Hg H; [destruct Hin|].
  simpl. destruct Hin as [->|Hin].
  - rewrite Hf, Hg. simpl.
    pose proof (filter_length_le_impl f g l (fun y Hy => H y (or_intror Hy))). lia.
  - assert (IH' := IH Hin Hf Hg (fun y Hy => H y (or_intror Hy))).
    destruct (g a) eqn:Hga.
    + rewrite (H a (or_introl eq_refl) Hga). simpl. lia.
    + destruct (f a); simpl; lia.
Qed.

Lemma charAt_makeMove_other (b : Board) (position i : Z) (symbol : ascii) :
  0 <= position < Z.of_nat (length b) -> i <> position ->
  charAt (makeMove b position symbol) i = charAt b i.
Proof.
  intros Hr Hne. rewrite makeMove_in_range by exact Hr. unfold charAt.
  destruct (Z.ltb_spec i 0); [reflexivity|].
  apply list_lookup_insert_ne. lia.
Qed.

(** Playing a symbol on a free cell leaves one free cell fewer. *)
Lemma available_decreases (b : Board) (p : Z) (symbol : ascii) :
  In p (getAvailableMoves b) -> symbol <> "-"%char ->
  (length (getAvailableMoves (makeMove b p symbol)) < length (getAvailableMoves b))%nat.
Proof.
  intros Hin Hs.
  pose proof (proj1 (getAvailableMoves_spec b p) Hin) as [Hr Hc].
  apply charAt_Some in Hc as (H0 & Hl & Hlen).
  assert (Hrange : 0 <= p < Z.of_nat (length b)) by lia.
  unfold getAvailableMoves at 1 2.
  apply filter_length_lt_impl with (x := p).
  - simpl. lia.
  - apply strict_eq_Some. unfold charAt. destruct (Z.ltb_spec p 0); [lia|exact Hl].
  - rewrite charAt_makeMove_eq by exact Hrange. simpl.
    apply Ascii.eqb_neq. exact Hs.
  - intros y _. destruct (Z.eq_dec y p) as [->|Hne].
    + rewrite charAt_makeMove_eq by exact Hrange. simpl.
      intros H. apply Ascii.eqb_eq in H. contradiction.
    + rewrite charAt_makeMove_other by assumption. auto.
Qed.

End Available.

Section LoopsExt.
Import Bot Play.

Lemma max_loop_ext (c1 c2 : Z -> num -> num -> num) (positions : list Z) :
  (forall p a b, In p positions -> c1 p a b = c2 p a b) ->
  forall maxScore alpha beta,
    max_loop c1 positions maxScore alpha beta = max_loop c2 positions maxScore alpha beta.
Proof.
  induction positions as [|p rest IH]; intros H maxScore alpha beta; [reflexivity|].
  cbn [max_loop]. rewrite (H p alpha beta (or_introl eq_refl)).
  destruct (num_leb _ _); [reflexivity|].
  apply IH. intros q a b Hq. apply H. right. exact Hq.
Qed.

Lemma min_loop_ext (c1 c2 : Z -> num -> num -> num) (positions : list Z) :
  (forall p a b, In p positions -> c1 p a b = c2 p a b) ->
  forall minScore alpha beta,
    min_loop c1 positions minScore alpha beta = min_loop c2 positions minScore alpha beta.
Proof.
  induction positions as [|p rest IH]; intros H minScore alpha beta; [reflexivity|].
  cbn [min_loop]. rewrite (H p alpha beta (or_introl eq_refl)).
  destruct (num_leb _ _); [reflexivity|].
  apply IH. intros q a b Hq. apply H. right. exact Hq.
Qed.

Lemma fold_left_ext_in {A : Type} (f g : A -> Z -> A) (positions : list Z) :
  (forall acc p, In p positions -> f acc p = g acc p) ->
  forall acc, fold_left f positions acc = fold_left g positions acc.
Proof.
  induction positions as [|p rest IH]; intros H acc; [reflexivity|].
  simpl. rewrite (H acc p (or_introl eq_refl)).
  apply IH. intros a q Hq. apply H. right. exact Hq.
Qed.

Lemma some_move_ext (f g : Z -> bool) (positions : list Z) :
  (forall p, In p positions -> f p = g p) ->
  some_move f positions = some_move g positions.
Proof.
  induction positions as [|p rest IH]; intros H; [reflexivity|].
  simpl. rewrite (H p (or_introl eq_refl)), IH; [reflexivity|].
  intros q Hq. apply H. right. exact Hq.
Qed.

Lemma every_move_ext (f g : Z -> bool) (positions : list Z) :
  (forall p, In p positions -> f p = g p) ->
  every_move f positions = every_move g positions.
Proof.
  induction positions as [|p rest IH]; intros H; [reflexivity|].
  simpl. rewrite (H p (or_introl eq_refl)), IH; [reflexivity|].
  intros q Hq. apply H. right. exact Hq.
Qed.

End LoopsExt.

Section FuelEnough.
Import GameLogic Bot Exhaustive Play.

Variable botSymbol playerSymbol : ascii.
Hypothesis bot_not_dash : botSymbol <> "-"%char.
Hypothesis player_not_dash : playerSymbol <> "-"%char.

(** More fuel than free cells is enough: the result of [minimax] does not
    depend on the bound. *)
Lemma minimax_fuel_stable (n : nat) :
  forall (m : nat) (b : Board) (depth : Z) (isMaximizing : bool) (alpha beta : num),
    (length (getAvailableMoves b) < n)%nat ->
    (length (getAvailableMoves b) < m)%nat ->
    minimax_fuel n b depth isMaximizing alpha beta botSymbol playerSymbol
    = minimax_fuel m b depth isMaximizing alpha beta botSymbol playerSymbol.
Proof.
  induction n as [|n IH]; intros m b depth isMaximizing alpha beta Hn Hm; [lia|].
  destruct m as [|m]; [lia|].
  cbn [minimax_fuel].
  destruct (winner_is (checkWinner b) botSymbol); [reflexivity|].
  destruct (winner_is (checkWinner b) playerSymbol); [reflexivity|].
  destruct (GameLogic.isDraw b); [reflexivity|].
  destruct isMaximizing.
  - apply max_loop_ext. intros p a b' Hp.
    pose proof (available_decreases b p botSymbol Hp bot_not_dash).
    apply IH; lia.
  - apply min_loop_ext. intros p a b' Hp.
    pose proof (available_decreases b p playerSymbol Hp player_not_dash).
    apply IH; lia.
Qed.

Lemma minimax_exhaustive_fuel_stable (n : nat) :
  forall (m : nat) (b : Board) (depth : Z) (isMaximizing : bool),
    (length (getAvailableMoves b) < n)%nat ->
    (length (getAvailableMoves b) < m)%nat ->
    minimax_exhaustive_fuel n b depth isMaximizing botSymbol playerSymbol
    = minimax_exhaustive_fuel m b depth isMaximizing botSymbol playerSymbol.
Proof.
  induction n as [|n IH]; intros m b depth isMaximizing Hn Hm; [lia|].
  destruct m as [|m]; [lia|].
  cbn [minimax_exhaustive_fuel].
  destruct (winner_is (checkWinner b) botSymbol); [reflexivity|].
  destruct (winner_is (checkWinner b) playerSymbol); [reflexivity|].
  destruct (GameLogic.isDraw b); [reflexivity|].
  destruct isMaximizing.
  - apply fold_left_ext_in. intros acc p Hp.
    pose proof (available_decreases b p botSymbol Hp bot_not_dash).
    f_equal. apply IH; lia.
  - apply fold_left_ext_in. intros acc p Hp.
    pose proof (available_decreases b p playerSymbol Hp player_not_dash).
    f_equal. apply IH; lia.
Qed.

Lemma avoids_loss_fuel_stable (n : nat) :
  forall (m : nat) (b : Board) (myTurn : bool),
    (length (getAvailableMoves b) < n)%nat ->
    (length (getAvailableMoves b) < m)%nat ->
    avoids_loss_fuel n b botSymbol playerSymbol myTurn
    = avoids_loss_fuel m b botSymbol playerSymbol myTurn.
Proof.
  induction n as [|n IH]; intros m b myTurn Hn Hm; [lia|].
  destruct m as [|m]; [lia|].
  cbn [avoids_loss_fuel].
  destruct (winner_is (checkWinner b) botSymbol); [reflexivity|].
  destruct (winner_is (checkWinner b) playerSymbol); [reflexivity|].
  destruct (GameLogic.isDraw b); [reflexivity|].
  destruct myTurn.
  - apply some_move_ext. intros p Hp.
    pose proof (available_decreases b p botSymbol Hp bot_not_dash).
    apply IH; lia.
  - apply every_move_ext. intros p Hp.
    pose proof (available_decreases b p playerSymbol Hp player_not_dash).
    apply IH; lia.
Qed.

(** The bound of ten levels used by [minimax] is never reached: any larger
    bound gives the same score. *)
Lemma minimax_fuel_enough (n : nat) (b : Board) (depth : Z) (isMaximizing : bool)
    (alpha beta : num) :
  (10 <= n)%nat ->
  minimax_fuel n b depth isMaximizing alpha beta botSymbol playerSymbol
  = minimax b depth isMaximizing alpha beta botSymbol playerSymbol.
Proof.
  intros Hn. pose proof (getAvailableMoves_length b).
  apply minimax_fuel_stable; lia.
Qed.

Lemma minimax_exhaustive_fuel_enough (n : nat) (b : Board) (depth : Z) (isMaximizing : bool) :
  (10 <= n)%nat ->
  minimax_exhaustive_fuel n b depth isMaximizing botSymbol playerSymbol
  = minimax_exhaustive b depth isMaximizing botSymbol playerSymbol.
Proof.
  intros Hn. pose proof (getAvailableMoves_length b).
  apply minimax_exhaustive_fuel_stable; lia.
Qed.

Lemma avoids_loss_fuel_enough (n : nat) (b : Board) (myTurn : bool) :
  (10 <= n)%nat ->
  avoids_loss_fuel n b botSymbol playerSymbol myTurn
  = avoids_loss b botSymbol playerSymbol myTurn.
Proof.
  intros Hn. pose proof (getAvailableMoves_length b).
  apply avoids_loss_fuel_stable; lia.
Qed.

End FuelEnough.

Section Ascending.

Lemma StronglySorted_filter_lt (f : Z -> bool) (l : list Z) :
  StronglySorted Z.lt l -> StronglySorted Z.lt (List.filter f l).
Proof.
  induction 1 as [|a l Hs IH Ha]; simpl; [constructor|].
  destruct (f a); [|exact IH].
  constructor; [exact IH|].
  rewrite List.Forall_forall in *. intros x Hx.
  apply List.filter_In in Hx as [Hx _]. auto.
Qed.

Lemma StronglySorted_middle (l1 l2 : list Z) (x : Z) :
  StronglySorted Z.lt (l1 ++ x :: l2) ->
  (forall p, In p l1 -> p < x) /\ (forall p, In p l2 -> x < p).
Proof.
  induction l1 as [|a l1 IH]; simpl; intros H.
  - apply StronglySorted_inv in H as [_ H].
    rewrite List.Forall_forall in H. split; [intros p []|exact H].
  - apply StronglySorted_inv in H as [Hs Ha].
    destruct (IH Hs) as [H1 H2]. split; [|exact H2].
    intros p [<-|Hp]; [|auto].
    rewrite List.Forall_forall in Ha. apply Ha, in_elt.
Qed.

Lemma getAvailableMoves_ascending (b : Board) :
  StronglySorted Z.lt (GameLogic.getAvailableMoves b).
Proof.
  unfold GameLogic.getAvailableMoves. apply StronglySorted_filter_lt.
  repeat (constructor; [|repeat (constructor; [lia|]); constructor]). constructor.
Qed.

End Ascending.

Section BestLoop.
Import Bot.

Variable score_of : Z -> num.

(** The loop returns either the move it was entered with, no score being
    strictly better than the entry score, or the first position whose
    score is strictly better than everything before it and at least as
    good as everything after it. *)
Lemma best_loop_spec (positions : list Z) :
  forall bestMove bestScore,
    let r := best_loop score_of positions bestMove bestScore in
    (r = bestMove /\ forall p, In p positions -> num_le (score_of p) bestScore)
    \/ (exists l1 l2, positions = l1 ++ r :: l2
          /\ num_lt bestScore (score_of r)
          /\ (forall p, In p l1 -> num_lt (score_of p) (score_of r))
          /\ (forall p, In p l2 -> num_le (score_of p) (score_of r))).
Proof.
  induction positions as [|p rest IH]; intros bestMove bestScore; cbn [best_loop].
  - left. split; [reflexivity|intros p []].
  - unfold num_ltb. destruct (num_leb (score_of p) bestScore) eqn:Hcmp; cbn [negb].
    + destruct (IH bestMove bestScore) as [[Hr Hall]|(l1 & l2 & Hpos & Hlt & H1 & H2)].
      * left. split; [exact Hr|]. intros q [Hq|Hq]; [subst q; exact Hcmp|auto].
      * right. exists (p :: l1), l2. split; [simpl; congruence|].
        split; [exact Hlt|]. split; [|exact H2].
        intros q [Hq|Hq]; [subst q|auto].
        change (num_le (score_of p) bestScore) in Hcmp. NumTac.order.
    + change (num_lt bestScore (score_of p)) in Hcmp.
      destruct (IH p (score_of p)) as [[Hr Hall]|(l1 & l2 & Hpos & Hlt & H1 & H2)].
      * right. exists [], rest. rewrite Hr. split; [reflexivity|].
        split; [exact Hcmp|]. split; [intros q []|exact Hall].
      * right. exists (p :: l1), l2. split; [simpl; congruence|].
        split; [NumTac.order|]. split; [|exact H2].
        intros q [Hq|Hq]; [subst q; exact Hlt|auto].
Qed.

End BestLoop.

Section FindBestMove.
Import GameLogic Bot.

Lemma find_none_intro {A : Type} (f : A -> bool) (l : list A) :
  (forall x, In x l -> f x = false) -> find f l = None.
Proof.
  induction l as [|a l IH]; intros H; [reflexivity|].
  simpl. rewrite (H a (or_introl eq_refl)). apply IH.
  intros x Hx. apply H. right. exact Hx.
Qed.

Lemma includes_dash_available (b : Board) :
  length b = 9%nat -> includes_dash b = true -> getAvailableMoves b <> [].
Proof.
  intros Hlen Hinc. unfold includes_dash in Hinc.
  apply existsb_exists in Hinc as (ch & Hin & Hch).
  apply Ascii.eqb_eq in Hch. subst ch.
  apply list_elem_of_In, list_elem_of_lookup in Hin as [i Hi].
  pose proof (lookup_lt_Some _ _ _ Hi) as Hlt.
  assert (Hav : In (Z.of_nat i) (getAvailableMoves b)).
  { apply getAvailableMoves_spec. split; [lia|].
    unfold charAt. destruct (Z.ltb_spec (Z.of_nat i) 0); [lia|].
    rewrite Nat2Z.id. exact Hi. }
  intros Hnil. rewrite Hnil in Hav. destruct Hav.
Qed.

(** A nine-cell board on which the game is not over has a legal move. *)
Lemma not_over_available (b : Board) :
  length b = 9%nat -> isOver (checkGameOver b) = false -> getAvailableMoves b <> [].
Proof.
  intros Hlen Hover. apply includes_dash_available; [exact Hlen|].
  unfold checkGameOver in Hover. cbn [isOver] in Hover.
  destruct (checkWinner b) eqn:Hw; [discriminate|].
  unfold GameLogic.isDraw in Hover. rewrite Hw in Hover. simpl in Hover.
  rewrite andb_true_r in Hover. apply negb_false_iff in Hover. exact Hover.
Qed.

(** C7: on a board that is not over and offers no shortcut (it is not
    empty; the centre is taken or more than one cell is; no move wins at
    once and none blocks a win of the opponent), findBestMove returns a
    legal move whose minimax score is maximal, and the smallest cell index
    among the legal moves with that score. *)
Theorem findBestMove_first_of_the_best
    (b : Board) (botSymbol playerSymbol : ascii) :
  let availableMoves := getAvailableMoves b in
  let score := root_score b botSymbol playerSymbol in
  length b = 9%nat ->
  isOver (checkGameOver b) = false ->
  length availableMoves <> 9%nat ->
  (length availableMoves = 8%nat -> charAt b 4 <> Some "-"%char) ->
  (forall p, In p availableMoves ->
     winner_is (checkWinner (makeMove b p botSymbol)) botSymbol = false) ->
  (forall p, In p availableMoves ->
     winner_is (checkWinner (makeMove b p playerSymbol)) playerSymbol = false) ->
  In (findBestMove b botSymbol playerSymbol) availableMoves
  /\ (forall p, In p availableMoves ->
        num_le (score p) (score (findBestMove b botSymbol playerSymbol)))
  /\ (forall p, In p availableMoves ->
        score p = score (findBestMove b botSymbol playerSymbol) ->
        findBestMove b botSymbol playerSymbol <= p).
Proof.
  intros availableMoves score Hlen Hover Hn9 Hcentre Hwin Hblock.
  pose proof (not_over_available b Hlen Hover) as Hne.
  fold availableMoves in Hne.
  assert (Hfind : findBestMove b botSymbol playerSymbol
                  = best_loop score availableMoves (hd (-1) availableMoves) NegInfinity).
  { unfold findBestMove. fold availableMoves.
    destruct (Nat.eqb_spec (length availableMoves) 0) as [H0|_].
    { destruct availableMoves; [contradiction|discriminate]. }
    destruct (Nat.eqb_spec (length availableMoves) 9) as [H9|_]; [contradiction|].
    destruct (Nat.eqb_spec (length availableMoves) 8) as [H8|_]; cbn [andb].
    - destruct (strict_eq (charAt b 4) (Some "-"%char)) eqn:Hc.
      + apply strict_eq_Some in Hc. destruct (Hcentre H8 Hc).
      + rewrite (find_none_intro _ _ Hwin), (find_none_intro _ _ Hblock).
        reflexivity.
    - rewrite (find_none_intro _ _ Hwin), (find_none_intro _ _ Hblock).
      reflexivity. }
  rewrite Hfind.
  pose proof (getAvailableMoves_ascending b) as Hsorted. fold availableMoves in Hsorted.
  destruct (best_loop_spec score availableMoves (hd (-1) availableMoves) NegInfinity)
    as [[Hr Hall]|(l1 & l2 & Hpos & Hlt & H1 & H2)].
  - rewrite Hr. destruct availableMoves as [|h t]; [contradiction|]. cbn [hd].
    assert (Hneg : forall p, In p (h :: t) -> score p = NegInfinity).
    { intros p Hp. apply num_le_NegInfinity, Hall, Hp. }
    split; [left; reflexivity|]. split.
    + intros p Hp. rewrite (Hneg p Hp), (Hneg h (or_introl eq_refl)). reflexivity.
    + intros p [<-|Hp] _; [lia|].
      apply StronglySorted_inv in Hsorted as [_ Hh].
      rewrite List.Forall_forall in Hh. specialize (Hh p Hp). lia.
  - set (r := best_loop score availableMoves (hd (-1) availableMoves) NegInfinity) in *.
    rewrite Hpos in Hsorted. apply StronglySorted_middle in Hsorted as [Hbefore Hafter].
    split; [rewrite Hpos; apply in_elt|]. split.
    + intros p Hp. rewrite Hpos in Hp. apply in_app_or in Hp as [Hp|[<-|Hp]].
      * specialize (H1 p Hp). NumTac.order.
      * apply num_le_refl.
      * apply H2, Hp.
    + intros p Hp Heq. rewrite Hpos in Hp. apply in_app_or in Hp as [Hp|[<-|Hp]].
      * specialize (H1 p Hp). rewrite Heq in H1.
        exfalso. revert H1. generalize (score r). intros x Hx. NumTac.order.
      * lia.
      * specialize (Hafter p Hp). lia.
Qed.

End FindBestMove.

Section FindBestMoveWitness.
Import GameLogic Bot.

Lemma findBestMove_first_of_the_best_witness :
  isOver (checkGameOver (B "X---O----")) = false
  /\ In (findBestMove (B "X---O----") "X"%char "O"%char) (getAvailableMoves (B "X---O----"))
  /\ (forall p, In p (getAvailableMoves (B "X---O----")) ->
        root_score (B "X---O----") "X"%char "O"%char p
        = root_score (B "X---O----") "X"%char "O"%char
            (findBestMove (B "X---O----") "X"%char "O"%char) ->
        findBestMove (B "X---O----") "X"%char "O"%char <= p).
Proof.
  split; [reflexivity|].
  destruct (findBestMove_first_of_the_best (B "X---O----") "X"%char "O"%char)
    as (H1 & H2 & H3).
  - reflexivity.
  - reflexivity.
  - vm_compute. discriminate.
  - intros H. vm_compute in H. discriminate.
  - intros p Hp. vm_compute in Hp.
    repeat (destruct Hp as [Hp|Hp]; [subst p; reflexivity|]). destruct Hp.
  - intros p Hp. vm_compute in Hp.
    repeat (destruct Hp as [Hp|Hp]; [subst p; reflexivity|]). destruct Hp.
  - split; [exact H1|exact H3].
Defined.

End FindBestMoveWitness.

Section SafeMove.
Import GameLogic Bot Play SelfPlay.

Lemma all_boards_complete (n : nat) (b : Board) :
  length b = n ->
  Forall (fun ch => ch = "X"%char \/ ch = "O"%char \/ ch = "-"%char) b ->
  In b (all_boards n).
Proof.
  revert n. induction b as [|ch rest IH]; intros n Hlen Hall.
  - subst n. left. reflexivity.
  - destruct n as [|n]; [discriminate|]. injection Hlen as Hlen.
    apply Forall_cons_1 in Hall as [Hch Hrest].
    cbn [all_boards]. apply in_flat_map. exists rest.
    split; [apply IH; assumption|].
    destruct Hch as [->|[->| ->]]; simpl; auto.
Qed.

Lemma getNextSymbol_cases (b : Board) :
  getNextSymbol b = "X"%char \/ getNextSymbol b = "O"%char.
Proof. unfold getNextSymbol. destruct (_ <=? _); auto. Qed.

Lemma reachable_well_formed (b : Board) : reachable b -> well_formed b.
Proof.
  induction 1 as [|b position Hreach [Hlen Hall] Hover Hvalid].
  - split; [reflexivity|]. simpl.
    repeat (constructor; [right; right; reflexivity|]). constructor.
  - apply isValidMove_spec in Hvalid as [Hr Hc].
    apply charAt_Some in Hc as (_ & _ & Hlt).
    rewrite makeMove_in_range by lia. split.
    + rewrite length_insert. exact Hlen.
    + apply Forall_insert; [exact Hall|].
      destruct (getNextSymbol_cases b) as [-> | ->]; auto.
Qed.

(** The check of [keeps_safe_both], run on every nine-cell board. *)
Lemma every_board_keeps_safe : forallb keeps_safe_both (all_boards 9) = true.
Proof. vm_compute. reflexivity. Qed.

Lemma well_formed_keeps_safe (b : Board) (me opp : ascii) :
  well_formed b -> sides me opp -> keeps_safe b me opp = true.
Proof.
  intros [Hlen Hall] Hsides.
  pose proof (all_boards_complete 9 b Hlen Hall) as Hin.
  pose proof (proj1 (forallb_forall _ _) every_board_keeps_safe b Hin) as Hb.
  unfold keeps_safe_both in Hb.
  destruct (keeps_safe b "X"%char "O"%char) eqn:HX; [|discriminate].
  destruct Hsides as [[-> ->]|[-> ->]]; assumption.
Qed.

(** The position of the counterexample: X has played 0, 4 and 3, O has
    played 1 and 8, and O is to move against two threats. *)
Lemma lost_position_reachable : reachable (B "XO-XX---O").
Proof.
  change (reachable (makeMove (B "XO--X---O") 3 (getNextSymbol (B "XO--X---O")))).
  apply reachable_move; [|reflexivity|reflexivity].
  change (reachable (makeMove (B "XO--X----") 8 (getNextSymbol (B "XO--X----")))).
  apply reachable_move; [|reflexivity|reflexivity].
  change (reachable (makeMove (B "XO-------") 4 (getNextSymbol (B "XO-------")))).
  apply reachable_move; [|reflexivity|reflexivity].
  change (reachable (makeMove (B "X--------") 1 (getNextSymbol (B "X--------")))).
  apply reachable_move; [|reflexivity|reflexivity].
  change (reachable (makeMove (B "---------") 0 (getNextSymbol (B "---------")))).
  apply reachable_move; [|reflexivity|reflexivity].
  apply reachable_empty.
Qed.

(** C2 (as stated, refuted): on a reachable board that is not over, the move
    of findBestMove can still lose, when the acting side is lost whatever it
    plays. *)
Lemma findBestMove_cannot_save_a_lost_position :
  ~ (forall (b : Board) (me opp : ascii),
       reachable b -> isOver (checkGameOver b) = false -> sides me opp ->
       avoids_loss (makeMove b (findBestMove b me opp) me) me opp false = true).
Proof.
  intros H.
  specialize (H (B "XO-XX---O") "O"%char "X"%char lost_position_reachable eq_refl).
  assert (Hlost : avoids_loss
            (makeMove (B "XO-XX---O") (findBestMove (B "XO-XX---O") "O"%char "X"%char)
               "O"%char) "O"%char "X"%char false = false) by reflexivity.
  rewrite Hlost in H. discriminate H. right. split; reflexivity.
Qed.

(** C2 (amended): on every reachable board that is not over and for
    either acting symbol, if the acting symbol can still avoid a loss, then
    it still can after the move of findBestMove has been played and the
    opponent is to move. *)
Theorem findBestMove_keeps_the_game_safe (b : Board) (me opp : ascii) :
  reachable b ->
  isOver (checkGameOver b) = false ->
  sides me opp ->
  avoids_loss b me opp true = true ->
  avoids_loss (makeMove b (findBestMove b me opp) me) me opp false = true.
Proof.
  intros Hreach Hover Hsides Hsafe.
  pose proof (well_formed_keeps_safe b me opp (reachable_well_formed b Hreach) Hsides) as H.
  unfold keeps_safe in H. rewrite Hover, Hsafe in H.
  destruct (avoids_loss (makeMove b (findBestMove b me opp) me) me opp false);
    [reflexivity|discriminate H].
Qed.

Lemma findBestMove_keeps_the_game_safe_witness :
  avoids_loss (B "X--------") "O"%char "X"%char true = true
  /\ avoids_loss
       (makeMove (B "X--------") (findBestMove (B "X--------") "O"%char "X"%char) "O"%char)
       "O"%char "X"%char false = true.
Proof.
  split; [vm_compute; reflexivity|].
  apply (findBestMove_keeps_the_game_safe (B "X--------") "O"%char "X"%char).
  - change (reachable (makeMove (B "---------") 0 (getNextSymbol (B "---------")))).
    apply reachable_move; [apply reachable_empty|reflexivity|reflexivity].
  - reflexivity.
  - right. split; reflexivity.
  - vm_compute. reflexivity.
Defined.

(** Self-play from the empty board: whether the engine opens with X or
    answers with O, no play of the opponent beats it. *)
Lemma engine_never_loses_from_the_start :
  engine_holds (B "---------") "X"%char "O"%char true = true
  /\ engine_holds (B "---------") "O"%char "X"%char false = true.
Proof. split; vm_compute; reflexivity. Qed.

End SafeMove.

Section LegalMoves.
Import GameLogic.

(** X1: getAvailableMoves lists exactly the positions isValidMove accepts,
    each once and in ascending order. *)
Theorem available_moves_are_the_valid_moves (b : Board) :
  (forall p, In p (getAvailableMoves b) <-> isValidMove b p = true)
  /\ StronglySorted Z.lt (getAvailableMoves b).
Proof.
  split.
  - intros p. apply getAvailableMoves_valid.
  - apply getAvailableMoves_ascending.
Qed.

Lemma board_of_nine (b : Board) :
  length b = 9%nat ->
  exists c0 c1 c2 c3 c4 c5 c6 c7 c8, b = [c0; c1; c2; c3; c4; c5; c6; c7; c8].
Proof.
  intros H.
  do 9 (destruct b as [|? b]; [discriminate|]).
  destruct b; [|discriminate]. repeat eexists.
Qed.

(** X2: on a nine-cell board the occupied cells counted by countMoves and
    the free cells listed by getAvailableMoves add up to nine. *)
Theorem occupied_and_free_cells_add_up (b : Board) :
  length b = 9%nat ->
  countMoves b + Z.of_nat (length (getAvailableMoves b)) = 9.
Proof.
  intros H.
  destruct (board_of_nine b H) as (c0 & c1 & c2 & c3 & c4 & c5 & c6 & c7 & c8 & ->).
  unfold countMoves, getAvailableMoves. cbn [List.filter].
  change (charAt [c0; c1; c2; c3; c4; c5; c6; c7; c8] 0) with (Some c0).
  change (charAt [c0; c1; c2; c3; c4; c5; c6; c7; c8] 1) with (Some c1).
  change (charAt [c0; c1; c2; c3; c4; c5; c6; c7; c8] 2) with (Some c2).
  change (charAt [c0; c1; c2; c3; c4; c5; c6; c7; c8] 3) with (Some c3).
  change (charAt [c0; c1; c2; c3; c4; c5; c6; c7; c8] 4) with (Some c4).
  change (charAt [c0; c1; c2; c3; c4; c5; c6; c7; c8] 5) with (Some c5).
  change (charAt [c0; c1; c2; c3; c4; c5; c6; c7; c8] 6) with (Some c6).
  change (charAt [c0; c1; c2; c3; c4; c5; c6; c7; c8] 7) with (Some c7).
  change (charAt [c0; c1; c2; c3; c4; c5; c6; c7; c8] 8) with (Some c8).
  cbn [strict_eq].
  destruct (Ascii.eqb c0 "-"); destruct (Ascii.eqb c1 "-"); destruct (Ascii.eqb c2 "-");
    destruct (Ascii.eqb c3 "-"); destruct (Ascii.eqb c4 "-"); destruct (Ascii.eqb c5 "-");
    destruct (Ascii.eqb c6 "-"); destruct (Ascii.eqb c7 "-"); destruct (Ascii.eqb c8 "-");
    reflexivity.
Qed.

Lemma occupied_and_free_cells_add_up_witness :
  countMoves (B "XO-XX---O") + Z.of_nat (length (getAvailableMoves (B "XO-XX---O"))) = 9.
Proof. apply (occupied_and_free_cells_add_up (B "XO-XX---O")). reflexivity. Defined.

Lemma filter_twice {A : Type} (f g : A -> bool) (l : list A) :
  List.filter g (List.filter f l) = List.filter (fun x => f x && g x) l.
Proof.
  induction l as [|a l IH]; [reflexivity|]. simpl.
  destruct (f a); simpl; [destruct (g a); simpl; congruence|exact IH].
Qed.

(** X3: a valid move changes the cell played and no other: the board keeps
    its length, the cell holds the symbol, every other cell is as before, and
    (for a symbol other than the empty mark) the free cells are the old ones
    without the cell played. *)
Theorem valid_move_changes_one_cell (b : Board) (p : Z) (s : ascii) :
  isValidMove b p = true ->
  length (makeMove b p s) = length b
  /\ charAt (makeMove b p s) p = Some s
  /\ (forall i, i <> p -> charAt (makeMove b p s) i = charAt b i)
  /\ (s <> "-"%char ->
      getAvailableMoves (makeMove b p s)
      = List.filter (fun i => negb (i =? p)) (getAvailableMoves b)).
Proof.
  intros Hv. apply isValidMove_spec in Hv as [Hr Hc].
  apply charAt_Some in Hc as (H0 & Hl & Hlen).
  assert (Hrange : 0 <= p < Z.of_nat (length b)) by lia.
  split; [apply length_makeMove_in_range; lia|].
  split; [apply charAt_makeMove_eq; exact Hrange|].
  split; [intros i Hi; apply charAt_makeMove_other; assumption|].
  intros Hs. unfold getAvailableMoves.
  rewrite filter_twice. apply List.filter_ext. intros i.
  destruct (Z.eqb_spec i p) as [->|Hne]; cbn [negb].
  - rewrite charAt_makeMove_eq by exact Hrange. simpl.
    rewrite andb_false_r. apply Ascii.eqb_neq. exact Hs.
  - rewrite charAt_makeMove_other by assumption. rewrite andb_true_r. reflexivity.
Qed.

Lemma valid_move_changes_one_cell_witness :
  makeMove (B "XO-------") 4 "X"%char = B "XO--X----"
  /\ getAvailableMoves (makeMove (B "XO-------") 4 "X"%char)
     = List.filter (fun i => negb (i =? 4)) (getAvailableMoves (B "XO-------")).
Proof.
  split; [reflexivity|].
  apply (valid_move_changes_one_cell (B "XO-------") 4 "X"%char); [reflexivity|discriminate].
Defined.

End LegalMoves.

Section WinnerValue.
Import GameLogic.

Lemma checkWinner_char (b : Board) (w : option ascii) :
  (9 <= length b)%nat -> checkWinner b = Some w ->
  exists c, w = Some c /\ c <> "-"%char /\ In c b.
Proof.
  intros Hlen Hw.
  apply checkWinner_Some in Hw as (x & y & z & Hin & Hl & ->).
  pose proof (winning_combination_in_range _ _ _ Hin) as (Hx & _ & _).
  apply line_complete_spec in Hl as (Hnd & _ & _).
  destruct (charAt b x) as [c|] eqn:Hc.
  - exists c. split; [reflexivity|]. split; [congruence|].
    apply charAt_Some in Hc as (_ & Hl & _).
    apply list_elem_of_In, list_elem_of_lookup. eauto.
  - exfalso. unfold charAt in Hc. destruct (Z.ltb_spec x 0); [lia|].
    apply lookup_ge_None in Hc. lia.
Qed.

(** X4: the winner checkWinner reports is never the empty mark, and on a
    board of at least nine cells it is a character of the board (never
    undefined). *)
Theorem winner_is_a_mark_of_the_board (b : Board) (w : option ascii) :
  checkWinner b = Some w ->
  w <> Some "-"%char
  /\ ((9 <= length b)%nat -> exists c, w = Some c /\ In c b).
Proof.
  intros Hw. split.
  - apply checkWinner_Some in Hw as (x & y & z & _ & Hl & ->).
    apply line_complete_spec in Hl. tauto.
  - intros Hlen. destruct (checkWinner_char b w Hlen Hw) as (c & Hc & _ & Hin). eauto.
Qed.

Lemma winner_is_a_mark_of_the_board_witness :
  checkWinner (B "OXXOX-O--") = Some (Some "O"%char)
  /\ Some "O"%char <> Some "-"%char.
Proof.
  split; [reflexivity|].
  apply (proj1 (winner_is_a_mark_of_the_board (B "OXXOX-O--") (Some "O"%char) eq_refl)).
Defined.

(** X7: on a board of at least nine cells getGameStatus and checkGameOver
    agree: the status is finished exactly when isOver, and the winner and the
    draw flag are the same. *)
Theorem getGameStatus_agrees_with_checkGameOver (b : Board) :
  (9 <= length b)%nat ->
  GameStatus.getGameStatus b
  = {| GameStatus.status :=
         if Bot.isOver (Bot.checkGameOver b) then "finished"%string
         else "in-progress"%string;
       GameStatus.winner := Bot.winner (Bot.checkGameOver b);
       GameStatus.isDraw := Bot.isDraw (Bot.checkGameOver b) |}.
Proof.
  intros Hlen. unfold GameStatus.getGameStatus, Bot.checkGameOver.
  cbn [Bot.isOver Bot.winner Bot.isDraw].
  destruct (checkWinner b) as [w|] eqn:Hw.
  - destruct (checkWinner_char b w Hlen Hw) as (c & -> & _ & _).
    cbn [truthy]. unfold isDraw. rewrite Hw. cbn [truthy negb].
    rewrite andb_false_r. reflexivity.
  - cbn [truthy]. destruct (isDraw b); reflexivity.
Qed.

Lemma getGameStatus_agrees_with_checkGameOver_witness :
  GameStatus.status (GameStatus.getGameStatus (B "XOXXOOOXX")) = "finished"%string
  /\ GameStatus.isDraw (GameStatus.getGameStatus (B "XOXXOOOXX"))
     = Bot.isDraw (Bot.checkGameOver (B "XOXXOOOXX")).
Proof.
  rewrite (getGameStatus_agrees_with_checkGameOver (B "XOXXOOOXX")) by (simpl; lia).
  split; reflexivity.
Defined.

End WinnerValue.

Section Parity.
Import GameLogic Play.

Lemma count_filter_insert_keep (f : ascii -> bool) (b : Board) (i : nat) (old new : ascii) :
  b !! i = Some old -> f old = false -> f new = false ->
  length (List.filter f (<[i := new]> b)) = length (List.filter f b).
Proof.
  intros Hl Hold Hnew.
  assert (Hb : List.filter f b = List.filter f (take i b ++ old :: drop (S i) b))
    by (rewrite take_drop_middle; auto).
  rewrite Hb, insert_take_drop by (eapply lookup_lt_Some; eauto).
  rewrite !List.filter_app. cbn [List.filter]. rewrite Hold, Hnew. reflexivity.
Qed.

Lemma count_char_makeMove (b : Board) (p : Z) (s ch : ascii) :
  isValidMove b p = true -> ch <> "-"%char ->
  count_char ch (makeMove b p s)
  = count_char ch b + (if Ascii.eqb s ch then 1 else 0).
Proof.
  intros Hv Hch. apply isValidMove_spec in Hv as [Hr Hc].
  apply charAt_Some in Hc as (H0 & Hl & Hlen).
  rewrite makeMove_in_range by lia. unfold count_char.
  assert (Hold : Ascii.eqb "-"%char ch = false).
  { apply Ascii.eqb_neq. congruence. }
  destruct (Ascii.eqb s ch) eqn:Hs.
  - rewrite (count_filter_insert _ b _ "-"%char s Hl Hold Hs). lia.
  - rewrite (count_filter_insert_keep _ b _ "-"%char s Hl Hold Hs). lia.
Qed.

Lemma validateBoard_spec (b : Board) :
  validateBoard b = Valid <->
  length b = 9%nat /\ forallb board_char b = true
  /\ count_char "O"%char b <= count_char "X"%char b <= count_char "O"%char b + 1.
Proof.
  unfold validateBoard. fold board_char.
  destruct (Nat.eqb_spec (length b) 9) as [Hlen|Hlen]; cbn [negb];
    [|split; [discriminate|tauto]].
  destruct (forallb board_char b); cbn [negb]; [|split; [discriminate|intros (_ & H & _); discriminate]].
  destruct (Z.ltb_spec (count_char "X"%char b) (count_char "O"%char b));
    destruct (Z.gtb_spec (count_char "X"%char b) (count_char "O"%char b + 1));
    cbn [orb]; split; try discriminate; try (intros; lia); auto.
Qed.

Lemma forallb_insert (f : ascii -> bool) (b : Board) (i : nat) (new : ascii) :
  forallb f b = true -> f new = true -> forallb f (<[i := new]> b) = true.
Proof.
  revert i. induction b as [|a b IH]; intros i Hb Hn; [reflexivity|].
  simpl in Hb. apply andb_true_iff in Hb as [Ha Hb].
  destruct i; simpl.
  - rewrite Hn, Hb. reflexivity.
  - rewrite Ha. apply IH; assumption.
Qed.

(** One move of the symbol whose turn it is keeps the board valid and
    passes the turn to the other symbol. *)
Lemma next_symbol_step (b : Board) (p : Z) :
  validateBoard b = Valid -> isValidMove b p = true ->
  validateBoard (makeMove b p (getNextSymbol b)) = Valid
  /\ getNextSymbol (makeMove b p (getNextSymbol b))
     = (if Ascii.eqb (getNextSymbol b) "X"%char then "O"%char else "X"%char).
Proof.
  intros Hvalid Hv.
  apply validateBoard_spec in Hvalid as (Hlen & Hall & Hcount).
  pose proof (count_char_makeMove b p (getNextSymbol b) "X"%char Hv ltac:(discriminate)) as HX.
  pose proof (count_char_makeMove b p (getNextSymbol b) "O"%char Hv ltac:(discriminate)) as HO.
  assert (Hrange : 0 <= p < Z.of_nat (length b)).
  { apply isValidMove_spec in Hv as [Hr Hc]. apply charAt_Some in Hc. lia. }
  assert (Hchar : board_char (getNextSymbol b) = true).
  { destruct (getNextSymbol_cases b) as [-> | ->]; reflexivity. }
  split.
  - apply validateBoard_spec. split; [|split].
    + rewrite length_makeMove_in_range by lia. exact Hlen.
    + rewrite makeMove_in_range by exact Hrange. apply forallb_insert; assumption.
    + rewrite HX, HO. unfold getNextSymbol.
      destruct (Z.leb_spec (count_char "X"%char b) (count_char "O"%char b)); simpl; lia.
  - unfold getNextSymbol at 1. rewrite HX, HO. unfold getNextSymbol.
    destruct (Z.leb_spec (count_char "X"%char b) (count_char "O"%char b)); simpl.
    + destruct (Z.leb_spec (count_char "X"%char b + 1) (count_char "O"%char b + 0));
        [lia|reflexivity].
    + destruct (Z.leb_spec (count_char "X"%char b + 0) (count_char "O"%char b + 1));
        [reflexivity|lia].
Qed.

Lemma reachable_valid (b : Board) : reachable b -> validateBoard b = Valid.
Proof.
  induction 1 as [|b p Hreach IH Hover Hv]; [reflexivity|].
  apply next_symbol_step; assumption.
Qed.

(** X5: validateBoard accepts every board reachable under alternating
    play. *)
Theorem validateBoard_accepts_reachable_boards (b : Board) :
  reachable b -> validateBoard b = Valid.
Proof. apply reachable_valid. Qed.

Lemma validateBoard_accepts_reachable_boards_witness :
  validateBoard (B "XO-XX---O") = Valid.
Proof.
  apply (validateBoard_accepts_reachable_boards (B "XO-XX---O")).
  change (reachable (makeMove (B "XO--X---O") 3 (getNextSymbol (B "XO--X---O")))).
  apply reachable_move; [|reflexivity|reflexivity].
  change (reachable (makeMove (B "XO--X----") 8 (getNextSymbol (B "XO--X----")))).
  apply reachable_move; [|reflexivity|reflexivity].
  change (reachable (makeMove (B "XO-------") 4 (getNextSymbol (B "XO-------")))).
  apply reachable_move; [|reflexivity|reflexivity].
  change (reachable (makeMove (B "X--------") 1 (getNextSymbol (B "X--------")))).
  apply reachable_move; [|reflexivity|reflexivity].
  change (reachable (makeMove (B "---------") 0 (getNextSymbol (B "---------")))).
  apply reachable_move; [|reflexivity|reflexivity].
  apply reachable_empty.
Defined.

(** X6: on a board validateBoard accepts, a valid move of the symbol
    getNextSymbol names gives a board it accepts again, on which
    getNextSymbol names the other symbol. *)
Theorem getNextSymbol_alternates (b : Board) (p : Z) :
  validateBoard b = Valid -> isValidMove b p = true ->
  validateBoard (makeMove b p (getNextSymbol b)) = Valid
  /\ getNextSymbol (makeMove b p (getNextSymbol b)) <> getNextSymbol b.
Proof.
  intros Hvalid Hv.
  destruct (next_symbol_step b p Hvalid Hv) as [H1 H2]. split; [exact H1|].
  rewrite H2. destruct (getNextSymbol_cases b) as [-> | ->]; discriminate.
Qed.

Lemma getNextSymbol_alternates_witness :
  getNextSymbol (B "XO-------") = "X"%char
  /\ getNextSymbol (makeMove (B "XO-------") 4 (getNextSymbol (B "XO-------")))
     <> getNextSymbol (B "XO-------").
Proof.
  split; [reflexivity|].
  apply (getNextSymbol_alternates (B "XO-------") 4); reflexivity.
Defined.

End Parity.

Section Counting.

Lemma filter_length_all {A : Type} (f : A -> bool) (l : list A) :
  length (List.filter f l) = length l -> forall x, In x l -> f x = true.
Proof.
  induction l as [|a l IH]; intros H x Hx; [destruct Hx|].
  simpl in H. pose proof (List.filter_length_le f l) as Hle.
  destruct (f a) eqn:Ha; simpl in H; [|lia].
  destruct Hx as [<-|Hx]; [exact Ha|]. apply IH; [lia|exact Hx].
Qed.

Lemma filter_one_false {A : Type} (f : A -> bool) (l : list A) (i : A) :
  In i l -> f i = false -> (length (List.filter f l) + 1 <= length l)%nat.
Proof.
  induction l as [|a l IH]; intros Hi Hf; [destruct Hi|].
  pose proof (List.filter_length_le f l) as Hle. simpl.
  destruct Hi as [->|Hi].
  - rewrite Hf. lia.
  - specialize (IH Hi Hf). destruct (f a); simpl; lia.
Qed.

Lemma filter_two_false {A : Type} (f : A -> bool) (l : list A) (i j : A) :
  In i l -> In j l -> i <> j -> f i = false -> f j = false ->
  (length (List.filter f l) + 2 <= length l)%nat.
Proof.
  induction l as [|a l IH]; intros Hi Hj Hne Hfi Hfj; [destruct Hi|].
  simpl. destruct Hi as [->|Hi]; destruct Hj as [->|Hj].
  - contradiction.
  - rewrite Hfi. pose proof (filter_one_false f l j Hj Hfj). lia.
  - rewrite Hfj. pose proof (filter_one_false f l i Hi Hfi). lia.
  - specialize (IH Hi Hj Hne Hfi Hfj). destruct (f a); simpl; lia.
Qed.

Lemma find_first {A : Type} (f : A -> bool) (l : list A) (r : A) :
  find f l = Some r ->
  exists l1 l2, l = l1 ++ r :: l2 /\ f r = true /\ forall q, In q l1 -> f q = false.
Proof.
  induction l as [|a l IH]; [discriminate|]. simpl.
  destruct (f a) eqn:Ha.
  - intros [= <-]. exists [], l. split; [reflexivity|]. split; [exact Ha|intros q []].
  - intros H. destruct (IH H) as (l1 & l2 & -> & Hr & Hq).
    exists (a :: l1), l2. split; [reflexivity|]. split; [exact Hr|].
    intros q [<-|Hin]; auto.
Qed.

Lemma find_is_Some {A : Type} (f : A -> bool) (l : list A) (x : A) :
  In x l -> f x = true -> exists r, find f l = Some r.
Proof.
  intros Hin Hf. destruct (find f l) as [r|] eqn:Hfind; [eauto|].
  rewrite (find_none _ _ Hfind x Hin) in Hf. discriminate.
Qed.

End Counting.

Section Shortcuts.
Import GameLogic Bot.

Lemma winning_combination_distinct (x y z : Z) :
  In (x, y, z) WINNING_COMBINATIONS -> x <> y /\ y <> z /\ x <> z.
Proof.
  unfold WINNING_COMBINATIONS. simpl.
  intuition (match goal with H : (_, _, _) = (_, _, _) |- _ => injection H as <- <- <- end; lia).
Qed.

Lemma index_in_range (i : Z) : 0 <= i < 9 -> In i [0; 1; 2; 3; 4; 5; 6; 7; 8].
Proof. intros H. simpl. lia. Qed.

(** After a move on a free cell, a complete line needs two cells that were
    not free before it: with eight or nine free cells no move completes a
    line. *)
Lemma line_needs_two_marks (b : Board) (p : Z) (s : ascii) (w : option ascii) :
  In p (getAvailableMoves b) ->
  checkWinner (makeMove b p s) = Some w ->
  (length (getAvailableMoves b) <= 7)%nat.
Proof.
  intros Hp Hw.
  apply getAvailableMoves_spec in Hp as [Hr Hc].
  apply charAt_Some in Hc as (_ & _ & Hlen).
  assert (Hrange : 0 <= p < Z.of_nat (length b)) by lia.
  apply checkWinner_Some in Hw as (x & y & z & Hin & Hl & _).
  pose proof (winning_combination_in_range _ _ _ Hin) as (Hx & Hy & Hz).
  pose proof (winning_combination_distinct _ _ _ Hin) as (Hxy & Hyz & Hxz).
  apply line_complete_spec in Hl as (Hnd & Hexy & Heyz).
  set (f := fun i => strict_eq (charAt b i) (Some "-"%char)).
  assert (Hfree : forall i, i <> p ->
            charAt (makeMove b p s) i <> Some "-"%char -> f i = false).
  { intros i Hi Hn. unfold f. rewrite charAt_makeMove_other in Hn by assumption.
    apply not_true_iff_false. rewrite strict_eq_Some. exact Hn. }
  assert (Hnx : charAt (makeMove b p s) x <> Some "-"%char) by exact Hnd.
  assert (Hny : charAt (makeMove b p s) y <> Some "-"%char) by congruence.
  assert (Hnz : charAt (makeMove b p s) z <> Some "-"%char) by congruence.
  assert (H9 : length [0; 1; 2; 3; 4; 5; 6; 7; 8] = 9%nat) by reflexivity.
  unfold getAvailableMoves. fold f.
  destruct (Z.eq_dec x p) as [Hxp|Hxp]; [|destruct (Z.eq_dec y p) as [Hyp|Hyp]].
  - pose proof (filter_two_false f [0; 1; 2; 3; 4; 5; 6; 7; 8] y z
                  (index_in_range y Hy) (index_in_range z Hz) Hyz
                  (Hfree y ltac:(lia) Hny) (Hfree z ltac:(lia) Hnz)). lia.
  - pose proof (filter_two_false f [0; 1; 2; 3; 4; 5; 6; 7; 8] x z
                  (index_in_range x Hx) (index_in_range z Hz) Hxz
                  (Hfree x Hxp Hnx) (Hfree z ltac:(lia) Hnz)). lia.
  - pose proof (filter_two_false f [0; 1; 2; 3; 4; 5; 6; 7; 8] x y
                  (index_in_range x Hx) (index_in_range y Hy) Hxy
                  (Hfree x Hxp Hnx) (Hfree y Hyp Hny)). lia.
Qed.

Lemma winner_is_Some (w : option (option ascii)) (s : ascii) :
  winner_is w s = true -> w = Some (Some s).
Proof.
  destruct w as [[c|]|]; simpl; try discriminate.
  intros H. apply Ascii.eqb_eq in H. congruence.
Qed.

(** With a move that completes a line, findBestMove is past its opening
    shortcuts. *)
Lemma findBestMove_past_shortcuts (b : Board) (botSymbol playerSymbol s : ascii) (p : Z) :
  In p (getAvailableMoves b) ->
  winner_is (checkWinner (makeMove b p s)) s = true ->
  findBestMove b botSymbol playerSymbol
  = match find (fun position =>
                  winner_is (checkWinner (makeMove b position botSymbol)) botSymbol)
               (getAvailableMoves b) with
    | Some position => position
    | None =>
        match find (fun position =>
                      winner_is (checkWinner (makeMove b position playerSymbol)) playerSymbol)
                   (getAvailableMoves b) with
        | Some position => position
        | None =>
            best_loop (root_score b botSymbol playerSymbol) (getAvailableMoves b)
              (hd (-1) (getAvailableMoves b)) NegInfinity
        end
    end.
Proof.
  intros Hp Hw. apply winner_is_Some in Hw.
  pose proof (line_needs_two_marks b p s _ Hp Hw) as Hlen.
  unfold findBestMove.
  destruct (getAvailableMoves b) as [|a l] eqn:Hav; [destruct Hp|].
  destruct (Nat.eqb_spec (length (a :: l)) 0); [discriminate|].
  destruct (Nat.eqb_spec (length (a :: l)) 9); [lia|].
  destruct (Nat.eqb_spec (length (a :: l)) 8); [lia|].
  reflexivity.
Qed.

Lemma first_in_ascending (l1 l2 : list Z) (r q : Z) (f : Z -> bool) :
  StronglySorted Z.lt (l1 ++ r :: l2) ->
  (forall x, In x l1 -> f x = false) ->
  In q (l1 ++ r :: l2) -> f q = true -> r <= q.
Proof.
  intros Hs Hl1 Hq Hf.
  apply StronglySorted_middle in Hs as [_ Hafter].
  apply in_app_or in Hq as [Hq|[<-|Hq]].
  - rewrite (Hl1 q Hq) in Hf. discriminate.
  - lia.
  - specialize (Hafter q Hq). lia.
Qed.

Lemma findBestMove_search_in (b : Board) (botSymbol playerSymbol : ascii) :
  getAvailableMoves b <> [] ->
  In match find (fun position =>
                   winner_is (checkWinner (makeMove b position botSymbol)) botSymbol)
                (getAvailableMoves b) with
     | Some position => position
     | None =>
         match find (fun position =>
                       winner_is (checkWinner (makeMove b position playerSymbol))
                         playerSymbol)
                    (getAvailableMoves b) with
         | Some position => position
         | None =>
             best_loop (root_score b botSymbol playerSymbol) (getAvailableMoves b)
               (hd (-1) (getAvailableMoves b)) NegInfinity
         end
     end (getAvailableMoves b).
Proof.
  intros Hne.
  destruct (find (fun position =>
                    winner_is (checkWinner (makeMove b position botSymbol)) botSymbol)
                 (getAvailableMoves b)) as [r|] eqn:Hf1.
  { apply find_some in Hf1 as [Hf1 _]. exact Hf1. }
  destruct (find (fun position =>
                    winner_is (checkWinner (makeMove b position playerSymbol)) playerSymbol)
                 (getAvailableMoves b)) as [r|] eqn:Hf2.
  { apply find_some in Hf2 as [Hf2 _]. exact Hf2. }
  destruct (best_loop_spec (root_score b botSymbol playerSymbol) (getAvailableMoves b)
              (hd (-1) (getAvailableMoves b)) NegInfinity)
    as [[-> _]|(l1 & l2 & Hpos & _)].
  - destruct (getAvailableMoves b); [contradiction|left; reflexivity].
  - set (r := best_loop _ _ _ _) in *. rewrite Hpos. apply in_elt.
Qed.

Lemma findBestMove_valid (b : Board) (botSymbol playerSymbol : ascii) :
  getAvailableMoves b <> [] ->
  isValidMove b (findBestMove b botSymbol playerSymbol) = true.
Proof.
  intros Hne. apply getAvailableMoves_valid. unfold findBestMove.
  destruct (Nat.eqb_spec (length (getAvailableMoves b)) 0) as [H0|_].
  { destruct (getAvailableMoves b); [contradiction|discriminate]. }
  destruct (Nat.eqb_spec (length (getAvailableMoves b)) 9) as [H9|_].
  { unfold getAvailableMoves in *. apply List.filter_In. split; [simpl; lia|].
    apply (filter_length_all _ _ H9). simpl. lia. }
  destruct (Nat.eqb_spec (length (getAvailableMoves b)) 8) as [H8|_]; cbn [andb].
  - destruct (strict_eq (charAt b 4) (Some "-"%char)) eqn:Hc.
    + apply getAvailableMoves_spec. split; [lia|]. apply strict_eq_Some, Hc.
    + apply findBestMove_search_in, Hne.
  - apply findBestMove_search_in, Hne.
Qed.

(** X8: findBestMove returns -1 when the board has no free cell, and
    otherwise a free cell, a move that isValidMove accepts. *)
Theorem findBestMove_returns_a_free_cell (b : Board) (botSymbol playerSymbol : ascii) :
  (getAvailableMoves b = [] /\ findBestMove b botSymbol playerSymbol = -1)
  \/ (getAvailableMoves b <> []
      /\ isValidMove b (findBestMove b botSymbol playerSymbol) = true).
Proof.
  destruct (getAvailableMoves b) as [|a l] eqn:Hav.
  - left. split; [reflexivity|]. unfold findBestMove. rewrite Hav. reflexivity.
  - right. split; [discriminate|].
    apply findBestMove_valid. rewrite Hav. discriminate.
Qed.

(** X9: when some free cell wins the game at once for the acting symbol,
    findBestMove returns the smallest such cell. *)
Theorem findBestMove_takes_a_winning_move
    (b : Board) (botSymbol playerSymbol : ascii) (p : Z) :
  In p (getAvailableMoves b) ->
  winner_is (checkWinner (makeMove b p botSymbol)) botSymbol = true ->
  In (findBestMove b botSymbol playerSymbol) (getAvailableMoves b)
  /\ winner_is (checkWinner (makeMove b (findBestMove b botSymbol playerSymbol) botSymbol))
       botSymbol = true
  /\ findBestMove b botSymbol playerSymbol <= p.
Proof.
  intros Hp Hw.
  rewrite (findBestMove_past_shortcuts b botSymbol playerSymbol botSymbol p Hp Hw).
  destruct (find_is_Some
              (fun position =>
                 winner_is (checkWinner (makeMove b position botSymbol)) botSymbol)
              (getAvailableMoves b) p Hp Hw) as [r Hr].
  rewrite Hr.
  pose proof (find_some _ _ Hr) as [Hin Hwin].
  split; [exact Hin|]. split; [exact Hwin|].
  apply find_first in Hr as (l1 & l2 & Hpos & _ & Hbefore).
  pose proof (getAvailableMoves_ascending b) as Hs. rewrite Hpos in Hs, Hp.
  exact (first_in_ascending l1 l2 r p _ Hs Hbefore Hp Hw).
Qed.

Lemma findBestMove_takes_a_winning_move_witness :
  findBestMove (B "XX-OO----") "X"%char "O"%char = 2
  /\ winner_is (checkWinner (makeMove (B "XX-OO----")
                  (findBestMove (B "XX-OO----") "X"%char "O"%char) "X"%char)) "X"%char = true.
Proof.
  split; [reflexivity|].
  apply (findBestMove_takes_a_winning_move (B "XX-OO----") "X"%char "O"%char 2).
  - simpl. tauto.
  - reflexivity.
Defined.

(** X10: when no free cell wins at once for the acting symbol but some
    free cell would win at once for the opponent, findBestMove returns the
    smallest such cell: it blocks. *)
Theorem findBestMove_blocks_a_winning_move
    (b : Board) (botSymbol playerSymbol : ascii) (p : Z) :
  (forall q, In q (getAvailableMoves b) ->
     winner_is (checkWinner (makeMove b q botSymbol)) botSymbol = false) ->
  In p (getAvailableMoves b) ->
  winner_is (checkWinner (makeMove b p playerSymbol)) playerSymbol = true ->
  In (findBestMove b botSymbol playerSymbol) (getAvailableMoves b)
  /\ winner_is (checkWinner (makeMove b (findBestMove b botSymbol playerSymbol) playerSymbol))
       playerSymbol = true
  /\ findBestMove b botSymbol playerSymbol <= p.
Proof.
  intros Hnowin Hp Hw.
  rewrite (findBestMove_past_shortcuts b botSymbol playerSymbol playerSymbol p Hp Hw).
  rewrite (find_none_intro _ _ Hnowin).
  destruct (find_is_Some
              (fun position =>
                 winner_is (checkWinner (makeMove b position playerSymbol)) playerSymbol)
              (getAvailableMoves b) p Hp Hw) as [r Hr].
  rewrite Hr.
  pose proof (find_some _ _ Hr) as [Hin Hwin].
  split; [exact Hin|]. split; [exact Hwin|].
  apply find_first in Hr as (l1 & l2 & Hpos & _ & Hbefore).
  pose proof (getAvailableMoves_ascending b) as Hs. rewrite Hpos in Hs, Hp.
  exact (first_in_ascending l1 l2 r p _ Hs Hbefore Hp Hw).
Qed.

Lemma findBestMove_blocks_a_winning_move_witness :
  findBestMove (B "XX--O----") "O"%char "X"%char = 2
  /\ winner_is (checkWinner (makeMove (B "XX--O----")
                  (findBestMove (B "XX--O----") "O"%char "X"%char) "X"%char)) "X"%char = true.
Proof.
  split; [reflexivity|].
  apply (findBestMove_blocks_a_winning_move (B "XX--O----") "O"%char "X"%char 2).
  - intros q Hq. vm_compute in Hq.
    repeat (destruct Hq as [Hq|Hq]; [subst q; reflexivity|]). destruct Hq.
  - simpl. tauto.
  - reflexivity.
Defined.

End Shortcuts.

Section RoomSteps.
Import Rooms RoomRun RoomInvariants.
Local Open Scope string_scope.

Lemma existsb_eqb_In (u : string) (l : list string) :
  existsb (String.eqb u) l = true <-> In u l.
Proof.
  rewrite existsb_exists. split.
  - intros (x & Hx & He). apply String.eqb_eq in He. congruence.
  - intros H. exists u. split; [exact H|apply String.eqb_refl].
Qed.

Lemma existsb_eqb_snoc (u : string) (l : list string) :
  existsb (String.eqb u) (l ++ [u])%list = true.
Proof. apply existsb_eqb_In, in_or_app. right. left. reflexivity. Qed.

(** X11: joining twice is joining once: a second join by the same user
    changes nothing, whether the first one seated the user, made the user a
    spectator or found the user already in the room. *)
Theorem join_is_idempotent (db : Db) (user : string) :
  join (join db user) user = join db user.
Proof.
  unfold join at 2 3.
  destruct (is_user (player1Id (room db)) user || is_user (player2Id (room db)) user
            || existsb (String.eqb user) (spectators db)) eqn:Hre.
  - unfold join. rewrite Hre. reflexivity.
  - destruct (negb (truthy_text (player2Id (room db))) && String.eqb (status (room db)) "waiting").
    + unfold join. cbn [room player1Id player2Id spectators is_user].
      rewrite String.eqb_refl, orb_true_r. reflexivity.
    + unfold join. cbn [room player1Id player2Id spectators].
      rewrite existsb_eqb_snoc, orb_true_r. reflexivity.
Qed.

(** The run of a list of requests keeps what every request keeps. *)
Lemma room_run_invariant (P : Db -> Prop) :
  (forall db db' req, P db -> step (Some db) req = Some db' -> P db') ->
  forall reqs db db', P db -> run (Some db) reqs = Some db' -> P db'.
Proof.
  intros Hstep reqs. induction reqs as [|req reqs IH]; intros db db' HP.
  - intros [= <-]. exact HP.
  - rewrite room_run_cons. destruct (step (Some db) req) as [d|] eqn:Hs.
    + apply IH. eapply Hstep; eauto.
    + rewrite room_run_deleted. discriminate.
Qed.

Lemma NoDup_snoc (l : list string) (u : string) :
  List.NoDup l -> ~ In u l -> List.NoDup (l ++ [u])%list.
Proof.
  intros Hl Hu. apply List.NoDup_rev in Hl. rewrite <- (List.rev_involutive (l ++ [u])%list).
  apply List.NoDup_rev. rewrite List.rev_app_distr. simpl.
  constructor; [|exact Hl]. rewrite <- List.in_rev. exact Hu.
Qed.

Lemma is_user_false_of_not_spectator (u s : string) (l : list string) :
  existsb (String.eqb u) l = false -> In s l -> String.eqb u s = false.
Proof.
  intros He Hs. apply not_true_iff_false. intros Heq.
  apply String.eqb_eq in Heq. subst s.
  apply existsb_eqb_In in Hs. congruence.
Qed.

Lemma seats_ok_step (db db' : Db) (req : Request) :
  seats_ok db -> step (Some db) req = Some db' -> seats_ok db'.
Proof.
  intros [Hnd Hsp]. destruct req as [user|user|user position cv|user|]; cbn [step].
  - intros [= <-]. unfold join.
    destruct (is_user (player1Id (room db)) user) eqn:H1; cbn [orb]; [split; assumption|].
    destruct (is_user (player2Id (room db)) user) eqn:H2; cbn [orb]; [split; assumption|].
    destruct (existsb (String.eqb user) (spectators db)) eqn:H3; [split; assumption|].
    destruct (_ && _).
    + split; [exact Hnd|]. cbn [room spectators player1Id player2Id is_user].
      intros s Hs. split; [apply Hsp, Hs|].
      eapply is_user_false_of_not_spectator; eauto.
    + split; cbn [room spectators].
      * apply NoDup_snoc; [exact Hnd|]. rewrite <- existsb_eqb_In. congruence.
      * intros s Hs. apply in_app_or in Hs as [Hs|[<-|[]]]; [apply Hsp, Hs|].
        split; assumption.
  - intros [= <-]. unfold spectate.
    destruct (is_user (player1Id (room db)) user) eqn:H1; cbn [orb]; [split; assumption|].
    destruct (is_user (player2Id (room db)) user) eqn:H2; cbn [orb]; [split; assumption|].
    destruct (existsb (String.eqb user) (spectators db)) eqn:H3; [split; assumption|].
    split; cbn [room spectators].
    + apply NoDup_snoc; [exact Hnd|]. rewrite <- existsb_eqb_In. congruence.
    + intros s Hs. apply in_app_or in Hs as [Hs|[<-|[]]]; [apply Hsp, Hs|].
      split; assumption.
  - destruct (Game.move (Some db) user position cv) as [d|e] eqn:Hm;
      intros [= <-]; [|split; assumption].
    destruct (move_accepted_inv _ _ _ _ _ Hm)
      as (role & sym & _ & _ & _ & _ & _ & _ & _ & _ & _ & _ & Hspec).
    assert (Hids : player1Id (room d) = player1Id (room db)
                   /\ player2Id (room d) = player2Id (room db)).
    { revert Hm. unfold Game.move.
      destruct (String.eqb _ _); [discriminate|].
      destruct (String.eqb _ _); [discriminate|].
      destruct (version_conflict _ _); [discriminate|].
      destruct (Game.playerRole _ _); [|discriminate].
      destruct (negb _); [discriminate|].
      destruct (negb _); [discriminate|].
      destruct (GameLogic.truthy _); [|destruct (GameLogic.isDraw _)];
        intros [= <-]; split; reflexivity. }
    destruct Hids as [Hp1 Hp2]. unfold seats_ok. rewrite Hspec, Hp1, Hp2.
    split; assumption.
  - unfold leave.
    destruct (negb (is_user (player1Id (room db)) user)
              && negb (is_user (player2Id (room db)) user)).
    + intros [= <-]. split; cbn [room spectators].
      * apply List.NoDup_filter, Hnd.
      * intros s Hs. apply List.filter_In in Hs as [Hs _]. apply Hsp, Hs.
    + destruct (is_user (player1Id (room db)) user); [discriminate|].
      destruct (String.eqb (status (room db)) "in-progress"); intros [= <-];
        (split; [exact Hnd|]); cbn [room spectators player1Id player2Id is_user];
        intros s Hs; (split; [apply Hsp, Hs|reflexivity]).
  - discriminate.
Qed.

(** X12: after any sequence of requests on a room, no user is recorded
    twice as a spectator and no spectator holds one of the two seats. *)
Theorem spectators_are_distinct_and_unseated (user : string) (reqs : list Request) (db : Db) :
  run (Some (create user)) reqs = Some db ->
  List.NoDup (spectators db)
  /\ forall s, In s (spectators db) ->
       is_user (player1Id (room db)) s = false /\ is_user (player2Id (room db)) s = false.
Proof.
  apply (room_run_invariant seats_ok seats_ok_step).
  split; [constructor|intros s []].
Qed.

Lemma spectators_are_distinct_and_unseated_witness :
  exists db,
    run (Some (create "alice"))
      [ReqJoin "bob"; ReqJoin "carol"; ReqSpectate "carol"; ReqJoin "dave"] = Some db
    /\ List.NoDup (spectators db)
    /\ spectators db = ["carol"; "dave"].
Proof.
  eexists. split; [vm_compute; reflexivity|]. split; [|reflexivity].
  refine (proj1 (spectators_are_distinct_and_unseated "alice"
            [ReqJoin "bob"; ReqJoin "carol"; ReqSpectate "carol"; ReqJoin "dave"] _ _)).
  vm_compute. reflexivity.
Defined.

End RoomSteps.

Section RoomMoves.
Import Rooms RoomRun RoomInvariants.
Local Open Scope string_scope.

Lemma playerRole_cases (r : Room) (user role : string) :
  Game.playerRole r user = Some role ->
  (role = "player1" /\ is_user (player1Id r) user = true)
  \/ (role = "player2" /\ is_user (player1Id r) user = false
      /\ is_user (player2Id r) user = true).
Proof.
  unfold Game.playerRole.
  destruct (is_user (player1Id r) user); [intros [= <-]; left; auto|].
  destruct (is_user (player2Id r) user); [intros [= <-]; right; auto|discriminate].
Qed.

Lemma is_turn_Some (turn : option string) (role : string) :
  Game.is_turn turn role = true <-> turn = Some role.
Proof.
  destruct turn as [t|]; simpl; [|split; discriminate].
  rewrite String.eqb_eq. split; congruence.
Qed.

(** What an accepted move writes besides the board, the version and the
    log. *)
Lemma move_accepted_outcome (db db' : Db) (user : string) (position : Z) (cv : option Z) :
  Game.move (Some db) user position cv = Ok db' ->
  exists role,
    Game.playerRole (room db) user = Some role
    /\ currentTurn (room db) = Some role
    /\ player1Id (room db') = player1Id (room db)
    /\ player2Id (room db') = player2Id (room db)
    /\ board (room db')
       = GameLogic.makeMove (board (room db)) position (seat_symbol role)
    /\ ((GameLogic.truthy (GameLogic.checkWinner (board (room db'))) = true
         /\ status (room db') = "finished" /\ winnerId (room db') = Some user
         /\ isDraw (room db') = false /\ currentTurn (room db') = None)
        \/ (GameLogic.truthy (GameLogic.checkWinner (board (room db'))) = false
            /\ GameLogic.isDraw (board (room db')) = true
            /\ status (room db') = "finished" /\ winnerId (room db') = None
            /\ isDraw (room db') = true /\ currentTurn (room db') = None)
        \/ (GameLogic.truthy (GameLogic.checkWinner (board (room db'))) = false
            /\ GameLogic.isDraw (board (room db')) = false
            /\ status (room db') = "in-progress" /\ winnerId (room db') = None
            /\ isDraw (room db') = false
            /\ currentTurn (room db')
               = Some (if String.eqb role "player1" then "player2" else "player1"))).
Proof.
  unfold Game.move.
  destruct (String.eqb (status (room db)) "waiting"); [discriminate|].
  destruct (String.eqb (status (room db)) "finished"); [discriminate|].
  destruct (version_conflict cv (version (room db))); [discriminate|].
  destruct (Game.playerRole (room db) user) as [role|] eqn:Hr; [|discriminate].
  destruct (Game.is_turn (currentTurn (room db)) role) eqn:Ht; [|discriminate].
  destruct (GameLogic.isValidMove (board (room db)) position); [|discriminate].
  cbn [negb]. apply is_turn_Some in Ht.
  fold (seat_symbol role).
  set (newBoard := GameLogic.makeMove (board (room db)) position (seat_symbol role)).
  intros H. exists role. split; [reflexivity|]. split; [exact Ht|].
  destruct (GameLogic.truthy (GameLogic.checkWinner newBoard)) eqn:Hw.
  - injection H as <-. cbn [room player1Id player2Id board status winnerId isDraw currentTurn].
    repeat split. left. rewrite Hw. repeat split.
    unfold GameLogic.isDraw. rewrite Hw. apply andb_false_r.
  - destruct (GameLogic.isDraw newBoard) eqn:Hd; injection H as <-;
      cbn [room player1Id player2Id board status winnerId isDraw currentTurn];
      repeat split; right; [left|right]; rewrite Hw, Hd; repeat split.
    destruct (String.eqb role "player1"); reflexivity.
Qed.

(** X13: an accepted move leaves the room in exactly one of three states:
    finished with the mover as winner and no draw, finished as a draw without
    a winner, or in progress without winner or draw and with the turn passed
    to the other seat; nobody has the turn in a finished room. *)
Theorem accepted_move_outcome (db db' : Db) (user : string) (position : Z) (cv : option Z) :
  Game.move (Some db) user position cv = Ok db' ->
  (status (room db') = "finished" /\ winnerId (room db') = Some user
   /\ isDraw (room db') = false /\ currentTurn (room db') = None)
  \/ (status (room db') = "finished" /\ winnerId (room db') = None
      /\ isDraw (room db') = true /\ currentTurn (room db') = None)
  \/ (status (room db') = "in-progress" /\ winnerId (room db') = None
      /\ isDraw (room db') = false
      /\ exists t, currentTurn (room db') = Some t
                   /\ currentTurn (room db) <> Some t
                   /\ (t = "player1" \/ t = "player2")).
Proof.
  intros H.
  destruct (move_accepted_outcome _ _ _ _ _ H)
    as (role & Hr & Ht & _ & _ & _ & [Hc|[Hc|Hc]]).
  - left. tauto.
  - right. left. tauto.
  - right. right. destruct Hc as (_ & _ & Hs & Hw & Hd & Hturn).
    repeat (split; [assumption|]).
    eexists. split; [exact Hturn|]. rewrite Ht.
    destruct (playerRole_cases _ _ _ Hr) as [[-> _]|[-> _]]; simpl;
      split; [discriminate|tauto|discriminate|tauto].
Qed.

Lemma accepted_move_outcome_witness :
  exists db',
    Game.move (Some (join (create "alice") "bob")) "alice" 4 None = Ok db'
    /\ currentTurn (room db') = Some "player2"
    /\ status (room db') = "in-progress".
Proof.
  eexists. split; [reflexivity|]. split; [reflexivity|].
  destruct (accepted_move_outcome (join (create "alice") "bob") _ "alice" 4 None eq_refl)
    as [H|[H|H]]; [destruct H as [H _]; discriminate H
                  |destruct H as [H _]; discriminate H
                  |destruct H as [H _]; exact H].
Defined.

(** X14: for a caller who does not hold both seats, a move is accepted
    exactly when the room is neither waiting nor finished, the client's
    version (if any) is the stored one, the status route would answer
    isMyTurn for the caller, and the cell is free. *)
Theorem move_accepted_iff (db : Db) (user : string) (position : Z) (cv : option Z) :
  is_user (player1Id (room db)) user && is_user (player2Id (room db)) user = false ->
  (exists db', Game.move (Some db) user position cv = Ok db')
  <-> (String.eqb (status (room db)) "waiting" = false
       /\ String.eqb (status (room db)) "finished" = false
       /\ version_conflict cv (version (room db)) = false
       /\ GameStatusRoute.isMyTurn (room db) user = true
       /\ GameLogic.isValidMove (board (room db)) position = true).
Proof.
  intros Hseats.
  unfold Game.move, GameStatusRoute.isMyTurn, Game.playerRole.
  destruct (String.eqb (status (room db)) "waiting");
    [split; [intros [? H]; discriminate H|intros (H & _); discriminate H]|].
  destruct (String.eqb (status (room db)) "finished");
    [split; [intros [? H]; discriminate H|intros (_ & H & _); discriminate H]|].
  destruct (version_conflict cv (version (room db)));
    [split; [intros [? H]; discriminate H|intros (_ & _ & H & _); discriminate H]|].
  destruct (is_user (player1Id (room db)) user); cbn [andb] in *.
  - rewrite Hseats. cbn [andb].
    destruct (Game.is_turn (currentTurn (room db)) "player1"); cbn [negb].
    + destruct (GameLogic.isValidMove (board (room db)) position); cbn [negb].
      * split; [intros _; repeat split|intros _].
        destruct (GameLogic.truthy _); [|destruct (GameLogic.isDraw _)];
          eexists; reflexivity.
      * split; [intros [? H]; discriminate H|intros (_ & _ & _ & _ & H); discriminate H].
    + split; [intros [? H]; discriminate H|intros (_ & _ & _ & H & _); discriminate H].
  - destruct (is_user (player2Id (room db)) user); cbn [andb].
    + destruct (Game.is_turn (currentTurn (room db)) "player2"); cbn [negb].
      * destruct (GameLogic.isValidMove (board (room db)) position); cbn [negb].
        -- split; [intros _; repeat split|intros _].
           destruct (GameLogic.truthy _); [|destruct (GameLogic.isDraw _)];
             eexists; reflexivity.
        -- split; [intros [? H]; discriminate H|intros (_ & _ & _ & _ & H); discriminate H].
      * split; [intros [? H]; discriminate H|intros (_ & _ & _ & H & _); discriminate H].
    + split; [intros [? H]; discriminate H|intros (_ & _ & _ & H & _); discriminate H].
Qed.

Lemma move_accepted_iff_witness :
  GameStatusRoute.isMyTurn (room (join (create "alice") "bob")) "alice" = true
  /\ exists db', Game.move (Some (join (create "alice") "bob")) "alice" 4 (Some 0) = Ok db'.
Proof.
  split; [reflexivity|].
  apply (move_accepted_iff (join (create "alice") "bob") "alice" 4 (Some 0)).
  - reflexivity.
  - repeat split.
Defined.

End RoomMoves.

Section RoomRuns.
Import Rooms RoomRun RoomInvariants.
Local Open Scope string_scope.




Lemma frozen_rejects_moves (db : Db) (user : string) (position : Z) (cv : option Z) :
  frozen db -> exists e, Game.move (Some db) user position cv = Err e.
Proof.
  intros Hf. unfold Game.move.
  destruct (String.eqb (status (room db)) "waiting"); [eauto|].
  destruct (String.eqb_spec (status (room db)) "finished") as [|Hnf]; [eauto|].
  destruct (version_conflict cv (version (room db))); [eauto|].
  destruct (Game.playerRole (room db) user) as [role|]; [|eauto].
  destruct Hf as [Hturn|[Hfin _]]; [|contradiction].
  rewrite Hturn. cbn [Game.is_turn negb]. eauto.
Qed.

Lemma is_user_None (user : string) : is_user None user = false.
Proof. reflexivity. Qed.

Lemma frozen_step (db db' : Db) (req : Request) :
  frozen db -> step (Some db) req = Some db' ->
  frozen db' /\ board (room db') = board (room db) /\ moves db' = moves db.
Proof.
  intros Hf. destruct req as [user|user|user position cv|user|]; cbn [step].
  - intros [= <-]. unfold join.
    destruct (_ || _); [auto|].
    destruct (negb (truthy_text (player2Id (room db)))
              && String.eqb (status (room db)) "waiting") eqn:Hseat; [|auto].
    split; [|split; reflexivity].
    destruct Hf as [Hturn|[Hfin _]].
    + left. exact Hturn.
    + apply andb_true_iff in Hseat as [_ Hw]. rewrite Hfin in Hw. discriminate.
  - intros [= <-]. unfold spectate.
    destruct (_ || _); [auto|]. destruct (existsb _ _); auto.
  - destruct (frozen_rejects_moves db user position cv Hf) as [e He].
    rewrite He. intros [= <-]. auto.
  - unfold leave.
    destruct (negb (is_user (player1Id (room db)) user)
              && negb (is_user (player2Id (room db)) user)) eqn:Hsp;
      [intros [= <-]; auto|].
    destruct (is_user (player1Id (room db)) user) eqn:H1; [discriminate|].
    cbn [negb andb] in Hsp. apply negb_false_iff in Hsp.
    destruct Hf as [Hturn|[Hfin Hp2]].
    + destruct (String.eqb _ _); intros [= <-];
        (split; [left; exact Hturn|split; reflexivity]).
    + rewrite Hp2 in Hsp. discriminate.
  - discriminate.
Qed.

Lemma finished_frozen_step (db db' : Db) (req : Request) :
  (status (room db) = "finished" -> frozen db) ->
  step (Some db) req = Some db' ->
  (status (room db') = "finished" -> frozen db').
Proof.
  intros Hk. destruct req as [user|user|user position cv|user|]; cbn [step].
  - intros [= <-]. unfold join.
    destruct (_ || _); [exact Hk|].
    destruct (_ && _); [discriminate|exact Hk].
  - intros [= <-]. unfold spectate.
    destruct (_ || _); [exact Hk|]. destruct (existsb _ _); exact Hk.
  - destruct (Game.move (Some db) user position cv) as [d|e] eqn:Hm;
      intros [= <-]; [|exact Hk].
    destruct (move_accepted_outcome _ _ _ _ _ Hm)
      as (role & _ & _ & _ & _ & _ & [Hc|[Hc|Hc]]); intros Hfin.
    + left. tauto.
    + left. tauto.
    + destruct Hc as (_ & _ & Hs & _). rewrite Hs in Hfin. discriminate.
  - unfold leave.
    destruct (_ && _); [intros [= <-]; exact Hk|].
    destruct (is_user _ _); [discriminate|].
    destruct (String.eqb _ _); intros [= <-].
    + intros _. right. split; reflexivity.
    + discriminate.
  - discriminate.
Qed.

(** X16: once a room is finished, by a win, a draw or a forfeit, no later
    sequence of requests changes its board or its move log (as long as the
    room exists). *)
Theorem finished_room_never_changes
    (user : string) (reqs later : list Request) (db db' : Db) :
  run (Some (create user)) reqs = Some db ->
  status (room db) = "finished" ->
  run (Some db) later = Some db' ->
  board (room db') = board (room db) /\ moves db' = moves db.
Proof.
  intros Hrun Hfin Hlater.
  assert (Hfrozen : frozen db).
  { apply (room_run_invariant (fun d => status (room d) = "finished" -> frozen d)
             finished_frozen_step reqs (create user) db); [discriminate|exact Hrun|exact Hfin]. }
  pose proof (room_run_invariant
                (fun d => frozen d /\ board (room d) = board (room db) /\ moves d = moves db))
    as Hinv.
  refine (proj2 (Hinv _ later db db' _ Hlater)).
  - intros d d' req (Hf & Hb & Hm) Hs.
    destruct (frozen_step d d' req Hf Hs) as (Hf' & Hb' & Hm').
    split; [exact Hf'|]. split; congruence.
  - auto.
Qed.

Lemma finished_room_never_changes_witness :
  exists db db',
    run (Some (create "alice")) [ReqJoin "bob"; ReqLeave "bob"] = Some db
    /\ status (room db) = "finished"
    /\ run (Some db) [ReqJoin "carol"; ReqMove "alice" 4 None; ReqMove "carol" 0 None]
       = Some db'
    /\ board (room db') = board (room db).
Proof.
  eexists. eexists. split; [vm_compute; reflexivity|]. split; [reflexivity|].
  split; [vm_compute; reflexivity|].
  refine (proj1 (finished_room_never_changes "alice" [ReqJoin "bob"; ReqLeave "bob"]
            [ReqJoin "carol"; ReqMove "alice" 4 None; ReqMove "carol" 0 None] _ _ _ _ _));
    vm_compute; reflexivity.
Defined.

End RoomRuns.

Section RoomGame.
Import Rooms RoomRun RoomInvariants.
Local Open Scope string_scope.

Lemma not_over_no_winner (b : Board) :
  Bot.isOver (Bot.checkGameOver b) = false ->
  GameLogic.checkWinner b = None /\ GameLogic.isDraw b = false.
Proof.
  unfold Bot.checkGameOver. cbn [Bot.isOver].
  destruct (GameLogic.checkWinner b); [discriminate|]. auto.
Qed.

Lemma no_winner_not_over (b : Board) :
  length b = 9%nat ->
  GameLogic.truthy (GameLogic.checkWinner b) = false -> GameLogic.isDraw b = false ->
  Bot.isOver (Bot.checkGameOver b) = false.
Proof.
  intros Hlen Hw Hd. unfold Bot.checkGameOver. cbn [Bot.isOver].
  destruct (GameLogic.checkWinner b) as [w|] eqn:Hc; [|exact Hd].
  destruct (checkWinner_char b w ltac:(lia) Hc) as (c & -> & _). discriminate Hw.
Qed.

(** On a board without a winner, the winner after a placement is the symbol
    placed. *)
Lemma new_winner_is_the_symbol_placed (b : Board) (c : Z) (s : ascii) (w : option ascii) :
  length b = 9%nat ->
  GameLogic.checkWinner b = None ->
  GameLogic.checkWinner (GameLogic.makeMove b c s) = Some w ->
  w = Some s.
Proof.
  intros Hlen Hnone Hw.
  apply checkWinner_Some in Hw as (x & y & z & Hin & Hl & ->).
  pose proof (winning_combination_in_range _ _ _ Hin) as (Hx & Hy & Hz).
  pose proof (checkWinner_None b _ Hnone Hin) as Hold.
  assert (Hc : c = x \/ c = y \/ c = z).
  { destruct (Z.eq_dec c x); [tauto|]. destruct (Z.eq_dec c y); [tauto|].
    destruct (Z.eq_dec c z); [tauto|]. exfalso.
    apply line_complete_spec in Hl.
    rewrite !charAt_makeMove_ne in Hl by lia.
    apply line_complete_spec in Hl. congruence. }
  assert (Hrange : 0 <= c < Z.of_nat (length b)) by lia.
  pose proof (charAt_makeMove_eq b c s Hrange) as Hcell.
  apply line_complete_spec in Hl as (_ & Hxy & Hyz).
  destruct Hc as [->|[->| ->]]; congruence.
Qed.

Lemma reachable_length (b : Board) : Play.reachable b -> length b = 9%nat.
Proof. intros H. apply reachable_well_formed in H as [H _]. exact H. Qed.

Lemma seat_symbol_other (role : string) :
  role = "player1" \/ role = "player2" ->
  seat_symbol (if String.eqb role "player1" then "player2" else "player1")
  = (if Ascii.eqb (seat_symbol role) "X"%char then "O"%char else "X"%char).
Proof. intros [-> | ->]; reflexivity. Qed.

Lemma game_ok_step (db db' : Db) (req : Request) :
  game_ok db -> step (Some db) req = Some db' -> game_ok db'.
Proof.
  intros Hok. destruct req as [user|user|user position cv|user|]; cbn [step].
  - intros [= <-]. unfold join.
    destruct (_ || _); [exact Hok|]. destruct (_ && _); exact Hok.
  - intros [= <-]. unfold spectate.
    destruct (_ || _); [exact Hok|]. destruct (existsb _ _); exact Hok.
  - destruct (Game.move (Some db) user position cv) as [d|e] eqn:Hm;
      intros [= <-]; [|exact Hok].
    destruct Hok as [Hreach Hturn].
    destruct (move_accepted_inv _ _ _ _ _ Hm)
      as (role0 & sym & _ & _ & _ & _ & _ & Hvalid & _).
    destruct (move_accepted_outcome _ _ _ _ _ Hm)
      as (role & Hr & Ht & _ & _ & Hb & Hcases).
    destruct (Hturn role Ht) as (Hrole & Hover & Hnext).
    assert (Hreach' : Play.reachable (board (room d))).
    { rewrite Hb, <- Hnext. apply Play.reachable_move; assumption. }
    split; [exact Hreach'|].
    intros t Ht'. destruct Hcases as [Hc|[Hc|Hc]].
    + destruct Hc as (_ & _ & _ & _ & Hnone). congruence.
    + destruct Hc as (_ & _ & _ & _ & _ & Hnone). congruence.
    + destruct Hc as (Hw & Hd & _ & _ & _ & Hnew).
      rewrite Hnew in Ht'. injection Ht' as <-.
      split; [destruct Hrole as [-> | ->]; simpl; tauto|].
      split; [apply no_winner_not_over; auto using reachable_length|].
      rewrite seat_symbol_other by exact Hrole. rewrite <- Hnext, Hb, <- Hnext.
      apply next_symbol_step; [apply reachable_valid; exact Hreach|exact Hvalid].
  - unfold leave.
    destruct (_ && _); [intros [= <-]; exact Hok|].
    destruct (is_user _ _); [discriminate|].
    destruct (String.eqb _ _); intros [= <-]; exact Hok.
  - discriminate.
Qed.

Lemma game_ok_create (user : string) : game_ok (create user).
Proof.
  split; [apply Play.reachable_empty|].
  intros t [= <-]. repeat split. left. reflexivity.
Qed.

(** X17: after any sequence of requests on a room, the stored board is
    reachable under alternating play; whoever has the turn plays the symbol
    getNextSymbol names (X for the first seat, O for the second) on a board
    that is not over; and when the next accepted move records a winner, the
    line checkWinner finds on the stored board is of the mover's symbol. *)
Theorem room_board_follows_the_rules (user : string) (reqs : list Request) (db : Db) :
  run (Some (create user)) reqs = Some db ->
  Play.reachable (board (room db))
  /\ (forall t, currentTurn (room db) = Some t ->
        Bot.isOver (Bot.checkGameOver (board (room db))) = false
        /\ GameLogic.getNextSymbol (board (room db)) = seat_symbol t)
  /\ (forall u position cv db',
        Game.move (Some db) u position cv = Ok db' ->
        winnerId (room db') <> None ->
        winnerId (room db') = Some u
        /\ GameLogic.checkWinner (board (room db'))
           = Some (Some (if is_user (player1Id (room db)) u then "X"%char else "O"%char))).
Proof.
  intros Hrun.
  pose proof (room_run_invariant game_ok game_ok_step reqs (create user) db
                (game_ok_create user) Hrun) as [Hreach Hturn].
  split; [exact Hreach|]. split; [intros t Ht; destruct (Hturn t Ht); tauto|].
  intros u position cv db' Hm Hwin.
  destruct (move_accepted_outcome _ _ _ _ _ Hm)
    as (role & Hr & Ht & _ & _ & Hb & [Hc|[Hc|Hc]]);
    [|destruct Hc as (_ & _ & _ & Hn & _); congruence
     |destruct Hc as (_ & _ & _ & Hn & _); congruence].
  destruct Hc as (Hw & _ & Hwinner & _). split; [exact Hwinner|].
  destruct (Hturn role Ht) as (_ & Hover & _).
  apply not_over_no_winner in Hover as [Hnone _].
  destruct (GameLogic.checkWinner (board (room db'))) as [w|] eqn:Hcw; [|discriminate Hw].
  rewrite Hb in Hcw.
  rewrite (new_winner_is_the_symbol_placed _ _ _ _ (reachable_length _ Hreach) Hnone Hcw).
  destruct (playerRole_cases _ _ _ Hr) as [[-> ->]|[-> [-> _]]]; reflexivity.
Qed.

Lemma room_board_follows_the_rules_witness :
  exists db,
    run (Some (create "alice"))
      [ReqJoin "bob"; ReqMove "alice" 4 None; ReqMove "bob" 0 None; ReqMove "alice" 8 None]
    = Some db
    /\ board (room db) = B "O---X---X"
    /\ Play.reachable (board (room db)).
Proof.
  eexists. split; [vm_compute; reflexivity|]. split; [reflexivity|].
  refine (proj1 (room_board_follows_the_rules "alice"
    [ReqJoin "bob"; ReqMove "alice" 4 None; ReqMove "bob" 0 None; ReqMove "alice" 8 None]
    _ _)).
  vm_compute. reflexivity.
Defined.

End RoomGame.

Section RoomReplay.
Import Rooms RoomRun RoomInvariants Replay.
Local Open Scope string_scope.











End RoomReplay.

Section BotSteps.
Import BotRoutes BotRun BotInvariants.
Local Open Scope string_scope.

Lemma not_player_turn_false (turn : option string) :
  not_player_turn turn = false -> turn = Some "player".
Proof.
  destruct turn as [t|]; simpl; [|discriminate].
  intros H. apply negb_false_iff, String.eqb_eq in H. congruence.
Qed.

(** What an accepted bot-game move writes. *)
Lemma bot_move_accepted (db db' : Db) (user : string) (position : Z) (cv : option Z)
    (botMove : option Z) :
  move (Some db) user position cv = Ok (db', botMove) ->
  let g := game db in
  let ps := playerSymbol g in
  let bs := botSymbolOf ps in
  let b1 := GameLogic.makeMove (board g) position ps in
  let b2 := GameLogic.makeMove b1 (Bot.findBestMove b1 bs ps) bs in
  String.eqb (status g) "finished" = false
  /\ currentTurn g = Some "player"
  /\ GameLogic.isValidMove (board g) position = true
  /\ playerSymbol (game db') = ps
  /\ version (game db') = version g + 1
  /\ ((Bot.isOver (Bot.checkGameOver b1) = true
       /\ botMove = None
       /\ board (game db') = b1
       /\ length (moves db') = S (length (moves db)))
      \/ (Bot.isOver (Bot.checkGameOver b1) = false
          /\ botMove = Some (Bot.findBestMove b1 bs ps)
          /\ board (game db') = b2
          /\ length (moves db') = S (S (length (moves db)))))
  /\ currentTurn (game db')
     = (if Bot.isOver (Bot.checkGameOver (board (game db'))) then None else Some "player")
  /\ status (game db')
     = (if Bot.isOver (Bot.checkGameOver (board (game db'))) then "finished"
        else "in-progress")
  /\ winner (game db')
     = (if GameLogic.winner_is (GameLogic.checkWinner (board (game db'))) ps
        then Some "player"
        else if GameLogic.winner_is (GameLogic.checkWinner (board (game db'))) bs
             then Some "bot" else None).
Proof.
  unfold move.
  destruct (negb (String.eqb (userId (game db)) user)); [discriminate|].
  destruct (String.eqb (status (game db)) "finished"); [discriminate|].
  destruct (not_player_turn (currentTurn (game db))) eqn:Ht; [discriminate|].
  apply not_player_turn_false in Ht.
  destruct (version_conflict cv (version (game db))); [discriminate|].
  destruct (GameLogic.isValidMove (board (game db)) position); [|discriminate].
  cbn [negb].
  set (b1 := GameLogic.makeMove (board (game db)) position (playerSymbol (game db))).
  destruct (Bot.isOver (Bot.checkGameOver b1)) eqn:Hover; cbn [negb].
  - cbv beta iota zeta. intros [= <- <-].
    repeat match goal with |- _ /\ _ => split end; try reflexivity; try exact Ht.
    left. repeat split; try reflexivity; try exact Hover.
    cbn [moves]. rewrite length_app. simpl. lia.
  - set (p := Bot.findBestMove b1 _ _).
    set (b2 := GameLogic.makeMove b1 p _).
    cbv beta iota zeta. intros [= <- <-].
    repeat match goal with |- _ /\ _ => split end; try reflexivity; try exact Ht.
    right. repeat split; try reflexivity; try exact Hover.
    cbn [moves]. rewrite length_app. simpl. lia.
Qed.

Lemma every_move_forall (f : Z -> bool) (l : list Z) (p : Z) :
  Play.every_move f l = true -> In p l -> f p = true.
Proof.
  induction l as [|a l IH]; intros H Hp; [destruct Hp|].
  simpl in H. destruct (f a) eqn:Ha; [|discriminate].
  destruct Hp as [<-|Hp]; auto.
Qed.

Lemma winner_is_unique (w : option (option ascii)) (a c : ascii) :
  GameLogic.winner_is w a = true -> GameLogic.winner_is w c = true -> a = c.
Proof.
  intros Ha Hc. apply winner_is_Some in Ha. apply winner_is_Some in Hc. congruence.
Qed.

(** Where the engine holds, the opponent has not won. *)
Lemma engine_holds_not_lost (n : nat) (b : Board) (me opp : ascii) (turn : bool) :
  me <> opp ->
  SelfPlay.engine_holds_fuel n b me opp turn = true ->
  GameLogic.winner_is (GameLogic.checkWinner b) opp = false.
Proof.
  intros Hne. destruct n as [|n]; [discriminate|]. cbn [SelfPlay.engine_holds_fuel].
  destruct (GameLogic.winner_is (GameLogic.checkWinner b) me) eqn:Hme.
  - intros _. apply not_true_iff_false. intros Hopp.
    apply Hne. eapply winner_is_unique; eauto.
  - destruct (GameLogic.winner_is (GameLogic.checkWinner b) opp); [discriminate|reflexivity].
Qed.

(** Where the engine holds on a board that is not over, it holds after
    its own move, or after any move of the opponent. *)
Lemma engine_holds_next (n : nat) (b : Board) (me opp : ascii) (turn : bool) :
  Bot.isOver (Bot.checkGameOver b) = false ->
  SelfPlay.engine_holds_fuel n b me opp turn = true ->
  exists n',
    if turn then
      SelfPlay.engine_holds_fuel n'
        (GameLogic.makeMove b (Bot.findBestMove b me opp) me) me opp false = true
    else
      forall p, In p (GameLogic.getAvailableMoves b) ->
        SelfPlay.engine_holds_fuel n' (GameLogic.makeMove b p opp) me opp true = true.
Proof.
  intros Hover. apply not_over_no_winner in Hover as [Hnone Hdraw].
  destruct n as [|n]; [discriminate|]. cbn [SelfPlay.engine_holds_fuel].
  rewrite Hnone, Hdraw. cbn [GameLogic.winner_is].
  exists n. destruct turn; [assumption|].
  intros p Hp. eapply (every_move_forall _ _ p H Hp).
Qed.

Lemma botSymbolOf_cases (ps : ascii) :
  ps = "X"%char \/ ps = "O"%char ->
  botSymbolOf ps <> ps
  /\ (botSymbolOf ps = "X"%char \/ botSymbolOf ps = "O"%char)
  /\ botSymbolOf ps = (if Ascii.eqb ps "X"%char then "O"%char else "X"%char)
  /\ ps = (if Ascii.eqb (botSymbolOf ps) "X"%char then "O"%char else "X"%char).
Proof. intros [-> | ->]; repeat split; try discriminate; auto. Qed.

Lemma symbol_not_dash (s : ascii) : s = "X"%char \/ s = "O"%char -> s <> "-"%char.
Proof. intros [-> | ->]; discriminate. Qed.

Lemma bot_game_ok_create (user : string) (goFirst : option bool) :
  game_ok (create user goFirst).
Proof.
  destruct goFirst as [[|]|].
  - split; [left; reflexivity|]. split; [apply Play.reachable_empty|].
    split; [left; repeat split; exists 10%nat; vm_compute; reflexivity|].
    split; [discriminate|]. split; [reflexivity|]. split; [reflexivity|]. simpl. lia.
  - split; [right; reflexivity|]. split.
    { change (Play.reachable
                (GameLogic.makeMove (B "---------") 4
                   (GameLogic.getNextSymbol (B "---------")))).
      apply Play.reachable_move; [apply Play.reachable_empty|reflexivity|reflexivity]. }
    split; [left; repeat split; exists 9%nat; vm_compute; reflexivity|].
    split; [discriminate|]. split; [reflexivity|]. split; [reflexivity|]. simpl. lia.
  - split; [left; reflexivity|]. split; [apply Play.reachable_empty|].
    split; [left; repeat split; exists 10%nat; vm_compute; reflexivity|].
    split; [discriminate|]. split; [reflexivity|]. split; [reflexivity|]. simpl. lia.
Qed.

Lemma bot_game_ok_step (db : Db) (req : Request) :
  game_ok db -> game_ok (step db req).
Proof.
  intros Hok. destruct req as [user position cv]. cbn [step].
  destruct (move (Some db) user position cv) as [[db' botMove]|e] eqn:Hm; [|exact Hok].
  apply bot_move_accepted in Hm. cbv zeta in Hm.
  destruct Hm as (Hnf & Hturn & Hvalid & Hps & Hver & Hcases & Hturn' & Hstatus' & Hwinner').
  destruct Hok as (Hsym & Hreach & Hstate & Hnotwon & _ & Hcount & Hversion).
  destruct Hstate as [(Hs & _ & Hover & Hnext & n & Hn)|(Hs & _)];
    [|rewrite Hs in Hnf; discriminate].
  set (ps := playerSymbol (game db)) in *.
  set (bs := botSymbolOf ps) in *.
  set (b1 := GameLogic.makeMove (board (game db)) position ps) in *.
  destruct (botSymbolOf_cases ps Hsym) as (Hbs_ne & Hbs_sym & Hbs & Hps_of).
  fold bs in Hbs_ne, Hbs_sym, Hbs, Hps_of.
  assert (Hreach1 : Play.reachable b1).
  { unfold b1. rewrite <- Hnext. apply Play.reachable_move; assumption. }
  assert (Hcount1 : GameLogic.countMoves b1 = GameLogic.countMoves (board (game db)) + 1).
  { apply countMoves_makeMove; [exact Hvalid|apply symbol_not_dash, Hsym]. }
  destruct (engine_holds_next n _ bs ps false Hover Hn) as [n1 Hn1].
  specialize (Hn1 position (proj2 (getAvailableMoves_valid _ _) Hvalid)). fold b1 in Hn1.
  pose proof (engine_holds_not_lost _ _ _ _ _ Hbs_ne Hn1) as Hnot1.
  destruct Hcases as [(Hover1 & _ & Hb & Hlen)|(Hover1 & _ & Hb & Hlen)].
  - (* the human's move ended the game *)
    unfold game_ok. cbv zeta. rewrite Hps, Hb in *. fold ps.
    split; [exact Hsym|]. split; [exact Hreach1|].
    split; [right; rewrite Hstatus', Hturn', Hover1; auto|].
    split; [rewrite Hwinner', Hnot1; destruct (GameLogic.winner_is _ bs); discriminate|].
    split; [exact Hwinner'|].
    rewrite Hlen, Hver. split; lia.
  - (* the bot answered *)
    set (p := Bot.findBestMove b1 bs ps) in *.
    set (b2 := GameLogic.makeMove b1 p bs) in *.
    destruct (next_symbol_step (board (game db)) position
                (reachable_valid _ Hreach) Hvalid) as [_ Hnext1].
    rewrite Hnext in Hnext1. fold ps b1 in Hnext1. rewrite <- Hbs in Hnext1.
    assert (Hpvalid : GameLogic.isValidMove b1 p = true).
    { apply findBestMove_valid, not_over_available;
        [apply reachable_length, Hreach1|exact Hover1]. }
    assert (Hreach2 : Play.reachable b2).
    { unfold b2. rewrite <- Hnext1. apply Play.reachable_move; assumption. }
    destruct (engine_holds_next n1 _ bs ps true Hover1 Hn1) as [n2 Hn2].
    fold p b2 in Hn2.
    pose proof (engine_holds_not_lost _ _ _ _ _ Hbs_ne Hn2) as Hnot2.
    assert (Hcount2 : GameLogic.countMoves b2 = GameLogic.countMoves b1 + 1).
    { apply countMoves_makeMove; [exact Hpvalid|apply symbol_not_dash, Hbs_sym]. }
    destruct (next_symbol_step b1 p (reachable_valid _ Hreach1) Hpvalid) as [_ Hnext2].
    rewrite Hnext1 in Hnext2. fold b2 in Hnext2. rewrite <- Hps_of in Hnext2.
    unfold game_ok. cbv zeta. rewrite Hps, Hb in *. fold ps bs.
    split; [exact Hsym|]. split; [exact Hreach2|].
    split.
    { rewrite Hstatus', Hturn'.
      destruct (Bot.isOver (Bot.checkGameOver b2)) eqn:Hover2; [right; auto|].
      left. repeat split; auto. exists n2. exact Hn2. }
    split; [rewrite Hwinner', Hnot2; destruct (GameLogic.winner_is _ bs); discriminate|].
    split; [exact Hwinner'|].
    rewrite Hlen, Hver. split; lia.
Qed.

Lemma bot_game_ok_run (reqs : list Request) (db : Db) :
  game_ok db -> game_ok (run db reqs).
Proof.
  revert db. induction reqs as [|req reqs IH]; intros db Hok; [exact Hok|].
  change (run db (req :: reqs)) with (run (step db req) reqs).
  apply IH, bot_game_ok_step, Hok.
Qed.

(** X19: whatever the requests, the human is never recorded as the winner
    of a bot game: the bot wins or draws, as the header of services/bot.js
    announces. *)
Theorem the_bot_never_loses (user : string) (goFirst : option bool) (reqs : list Request) :
  winner (game (run (create user goFirst) reqs)) <> Some "player".
Proof.
  pose proof (bot_game_ok_run reqs _ (bot_game_ok_create user goFirst)) as H.
  unfold game_ok in H. cbv zeta in H. tauto.
Qed.

(** X20: after any sequence of requests on a bot game, the stored board is
    reachable under alternating play, and the stored status and turn agree
    with it: finished with nobody to move on a board that is over, or in
    progress with the human to play its own symbol on a board that is not
    over. *)
Theorem bot_game_follows_the_rules
    (user : string) (goFirst : option bool) (reqs : list Request) :
  let g := game (run (create user goFirst) reqs) in
  Play.reachable (board g)
  /\ ((status g = "in-progress" /\ currentTurn g = Some "player"
       /\ Bot.isOver (Bot.checkGameOver (board g)) = false
       /\ GameLogic.getNextSymbol (board g) = playerSymbol g)
      \/ (status g = "finished" /\ currentTurn g = None
          /\ Bot.isOver (Bot.checkGameOver (board g)) = true)).
Proof.
  pose proof (bot_game_ok_run reqs _ (bot_game_ok_create user goFirst)) as H.
  unfold game_ok in H. cbv zeta in *.
  destruct H as (_ & Hreach & [Hs|Hs] & _); split; auto.
  left. tauto.
Qed.


(** X28: the result stored in a bot game is the one its board shows: the
    winner is the bot exactly when checkWinner finds a line of the bot's
    symbol; a game in progress has no winner; and a finished game without
    winner is a draw, its board full and without a line. *)
Theorem bot_game_result_agrees_with_board
    (user : string) (goFirst : option bool) (reqs : list Request) :
  let g := game (run (create user goFirst) reqs) in
  (winner g = Some "bot"
   <-> GameLogic.checkWinner (board g) = Some (Some (botSymbolOf (playerSymbol g))))
  /\ (status g = "in-progress" -> winner g = None)
  /\ (status g = "finished" -> winner g = None -> GameLogic.isDraw (board g) = true).
Proof.
  pose proof (bot_game_ok_run reqs _ (bot_game_ok_create user goFirst)) as H.
  unfold game_ok in H. cbv zeta in *.
  set (g := game (run (create user goFirst) reqs)) in *.
  destruct H as (Hsym & Hreach & Hstate & Hnotwon & Hresult & _).
  destruct (GameLogic.winner_is (GameLogic.checkWinner (board g)) (playerSymbol g)) eqn:Hp;
    [congruence|].
  split; [|split].
  - destruct (GameLogic.winner_is (GameLogic.checkWinner (board g))
                (botSymbolOf (playerSymbol g))) eqn:Hb.
    + split; [intros _; apply winner_is_Some, Hb|intros _; exact Hresult].
    + split; [rewrite Hresult; discriminate|].
      intros Hw. rewrite Hw in Hb. unfold GameLogic.winner_is, strict_eq in Hb.
      rewrite Ascii.eqb_refl in Hb. discriminate.
  - intros Hs. destruct Hstate as [(_ & _ & Hover & _)|(Hf & _)]; [|congruence].
    apply not_over_no_winner in Hover as [Hnone _]. rewrite Hnone in Hresult.
    exact Hresult.
  - intros Hs Hw. destruct Hstate as [(Hi & _)|(_ & _ & Hover)]; [congruence|].
    unfold Bot.checkGameOver in Hover. cbn [Bot.isOver] in Hover.
    destruct (GameLogic.checkWinner (board g)) as [w|] eqn:Hcw; [|exact Hover].
    exfalso.
    pose proof (proj1 (validateBoard_spec _) (reachable_valid _ Hreach))
      as (Hlen & Hchars & _).
    assert (Hnine : (9 <= length (board g))%nat) by lia.
    destruct (checkWinner_char _ _ Hnine Hcw) as (c & -> & Hdash & Hin).
    rewrite forallb_forall in Hchars. specialize (Hchars c Hin).
    unfold board_char in Hchars. cbn [GameLogic.winner_is] in Hp, Hresult.
    destruct (Ascii.eqb_spec c "-"%char) as [|_]; [contradiction|].
    rewrite orb_false_r in Hchars.
    destruct Hsym as [Hps|Hps]; rewrite Hps in Hp, Hresult;
      change (botSymbolOf "X"%char) with "O"%char in Hresult;
      change (botSymbolOf "O"%char) with "X"%char in Hresult;
      destruct (Ascii.eqb c "X"%char); destruct (Ascii.eqb c "O"%char);
      cbn [orb] in Hchars; congruence.
Qed.

End BotSteps.



Section Stats.
Import BotStats.
Local Open Scope string_scope.

Lemma stats_fold (l : list (option string)) (s : Stats) :
  let r := fold_left count_game l s in
  total r = total s + Z.of_nat (length l)
  /\ total r - total s = (wins r - wins s) + (losses r - losses s) + (draws r - draws s)
  /\ wins s <= wins r /\ losses s <= losses r /\ draws s <= draws r
  /\ (Forall (fun w => w <> Some "player") l -> wins r = wins s).
Proof.
  revert s. induction l as [|w l IH]; intros s; cbv zeta.
  - simpl. repeat split; try lia.
  - change (fold_left count_game (w :: l) s) with (fold_left count_game l (count_game s w)).
    specialize (IH (count_game s w)). cbv zeta in IH.
    destruct IH as (Ht & Hsum & Hw & Hl & Hd & Hno).
    assert (Hstep : total (count_game s w) = total s + 1
                    /\ total (count_game s w) - total s
                       = (wins (count_game s w) - wins s)
                         + (losses (count_game s w) - losses s)
                         + (draws (count_game s w) - draws s)
                    /\ wins s <= wins (count_game s w)
                    /\ losses s <= losses (count_game s w)
                    /\ draws s <= draws (count_game s w)
                    /\ (w <> Some "player" -> wins (count_game s w) = wins s)).
    { unfold count_game. destruct w as [w|]; cbn.
      - destruct (String.eqb_spec w "player") as [->|Hne]; cbn.
        + repeat split; try lia. intros H. exfalso. apply H. reflexivity.
        + destruct (String.eqb w "bot"); cbn; repeat split; lia.
      - repeat split; lia. }
    destruct Hstep as (Ht1 & Hsum1 & Hw1 & Hl1 & Hd1 & Hno1).
    rewrite length_cons, Nat2Z.inj_succ.
    repeat split; try lia.
    intros Hall. apply Forall_cons_1 in Hall as [Hw0 Hall].
    rewrite (Hno Hall). apply Hno1, Hw0.
Qed.

(** X22: the statistics of the games list add up: [total] is the number
    of finished games, it is the sum of [wins], [losses] and [draws], and none
    of the counters is negative. *)
Theorem stats_add_up (finishedGames : list (option string)) :
  let stats := stats_of finishedGames in
  total stats = Z.of_nat (length finishedGames)
  /\ total stats = wins stats + losses stats + draws stats
  /\ 0 <= wins stats /\ 0 <= losses stats /\ 0 <= draws stats.
Proof.
  pose proof (stats_fold finishedGames {| total := 0; wins := 0; losses := 0; draws := 0 |}) as H.
  cbv zeta in *. fold (stats_of finishedGames) in H. cbn [total wins losses draws] in H.
  lia.
Qed.

End Stats.

Section StatsOfPlayedGames.
Import BotRoutes BotStats BotStatsQuery BotInvariants.
Local Open Scope string_scope.

Lemma played_not_won (g : BotGame) : played g -> winner g <> Some "player".
Proof.
  intros (user & goFirst & reqs & ->).
  pose proof (bot_game_ok_run reqs _ (bot_game_ok_create user goFirst)) as H.
  unfold game_ok in H. cbv zeta in H. tauto.
Qed.

(** X23: when every row of the bot-game table was written by [create] and
    accepted moves, the statistics of any user show no win: every finished
    game of the user counts as a loss or as a draw. *)
Theorem stats_show_no_win (table : list BotGame) (user : string) :
  Forall played table ->
  wins (user_stats table user) = 0
  /\ total (user_stats table user)
     = losses (user_stats table user) + draws (user_stats table user).
Proof.
  intros Hall.
  assert (Hno : Forall (fun w => w <> Some "player") (finishedGames table user)).
  { unfold finishedGames. induction Hall as [|g table Hg Hall IH]; [constructor|].
    cbn [List.filter].
    destruct (String.eqb (userId g) user && String.eqb (status g) "finished");
      [|exact IH].
    cbn [map]. constructor; [apply played_not_won, Hg|exact IH]. }
  pose proof (stats_fold (finishedGames table user)
                {| total := 0; wins := 0; losses := 0; draws := 0 |}) as H.
  cbv zeta in H. fold (stats_of (finishedGames table user)) in H.
  fold (user_stats table user) in H. cbn [total wins losses draws] in H.
  destruct H as (_ & Hsum & _ & _ & _ & Hwins). specialize (Hwins Hno). lia.
Qed.

Lemma stats_show_no_win_witness :
  let table :=
    [ game (BotRun.run (create "ann" (Some true))
              [BotRun.ReqMove "ann" 0 None; BotRun.ReqMove "ann" 1 None;
               BotRun.ReqMove "ann" 3 None]);
      game (BotRun.run (create "ann" (Some false)) []) ] in
  Forall played table
  /\ total (user_stats table "ann") = 1
  /\ wins (user_stats table "ann") = 0
  /\ total (user_stats table "ann")
     = losses (user_stats table "ann") + draws (user_stats table "ann").
Proof.
  cbv zeta.
  assert (H : Forall played
    [ game (BotRun.run (create "ann" (Some true))
              [BotRun.ReqMove "ann" 0 None; BotRun.ReqMove "ann" 1 None;
               BotRun.ReqMove "ann" 3 None]);
      game (BotRun.run (create "ann" (Some false)) []) ]).
  { constructor; [eexists _, _, _; reflexivity|].
    constructor; [eexists _, _, _; reflexivity|constructor]. }
  split; [exact H|]. split; [vm_compute; reflexivity|].
  exact (stats_show_no_win _ "ann" H).
Defined.

End StatsOfPlayedGames.

Section HelperLemmas.
Import Helpers.
Local Open Scope string_scope.

Lemma boardToArray_String (ch : ascii) (s : string) :
  boardToArray (String ch s) = String ch EmptyString :: boardToArray s.
Proof. reflexivity. Qed.

Lemma boardToArray_length (s : string) :
  length (boardToArray s) = String.length s.
Proof.
  induction s as [|ch s IH]; [reflexivity|].
  rewrite boardToArray_String. simpl. rewrite IH. reflexivity.
Qed.

(** X24: splitting a board into its characters and joining them again
    gives the board back, and the array has one one-character string for each
    character of the board. *)
Theorem board_array_round_trip (board : string) :
  arrayToBoard (boardToArray board) = board
  /\ length (boardToArray board) = String.length board
  /\ Forall (fun cell => String.length cell = 1%nat) (boardToArray board).
Proof.
  split; [|split; [apply boardToArray_length|]].
  - induction board as [|ch s IH]; [reflexivity|].
    rewrite boardToArray_String. unfold arrayToBoard in *. simpl. rewrite IH. reflexivity.
  - induction board as [|ch s IH]; [constructor|].
    rewrite boardToArray_String. constructor; [reflexivity|exact IH].
Qed.

(** X25: joining an array of one-character strings and splitting the
    result gives the array back. *)
Theorem array_board_round_trip (boardArray : list string) :
  Forall (fun cell => String.length cell = 1%nat) boardArray ->
  boardToArray (arrayToBoard boardArray) = boardArray.
Proof.
  induction 1 as [|cell arr Hcell Hall IH]; [reflexivity|].
  destruct cell as [|ch [|ch' rest]]; try discriminate.
  unfold arrayToBoard in *. simpl. rewrite boardToArray_String, IH. reflexivity.
Qed.

Lemma array_board_round_trip_witness :
  Forall (fun cell => String.length cell = 1%nat) ["X"; "-"; "O"]
  /\ boardToArray (arrayToBoard ["X"; "-"; "O"]) = ["X"; "-"; "O"].
Proof.
  assert (H : Forall (fun cell => String.length cell = 1%nat) ["X"; "-"; "O"]).
  { repeat constructor. }
  split; [exact H|exact (array_board_round_trip _ H)].
Defined.

(** X26: for a board of nine characters, [formatBoard] gives three rows
    of three cells, no cell is undefined, and the rows read one after the
    other are the cells of the board in order. *)
Theorem formatBoard_rows (board : string) :
  String.length board = 9%nat ->
  length (formatBoard board) = 3%nat
  /\ Forall (fun row => length row = 3%nat) (formatBoard board)
  /\ concat (formatBoard board) = map Some (boardToArray board).
Proof.
  intros Hlen. rewrite <- boardToArray_length in Hlen.
  unfold formatBoard. cbv zeta.
  destruct (boardToArray board) as [|c0 [|c1 [|c2 [|c3 [|c4 [|c5 [|c6 [|c7 [|c8 [|c9 rest]]]]]]]]]];
    try discriminate.
  repeat split; repeat constructor.
Qed.

Lemma formatBoard_rows_witness :
  String.length "XO-XX---O" = 9%nat
  /\ length (formatBoard "XO-XX---O") = 3%nat
  /\ Forall (fun row => length row = 3%nat) (formatBoard "XO-XX---O")
  /\ concat (formatBoard "XO-XX---O") = map Some (boardToArray "XO-XX---O").
Proof.
  split; [reflexivity|]. apply (formatBoard_rows "XO-XX---O"). reflexivity.
Defined.

End HelperLemmas.

Section GameLength.
Import Rooms RoomRun RoomInvariants.
Local Open Scope string_scope.





End GameLength.

